(** * AuraSight diagnostics backend: inference pipeline and report renderer

    A shallow embedding of [backend/main.py].

    The Python module is glue around OpenCV, Keras, tf-keras-vis, base64 and
    FPDF.  The glue itself (control flow, exceptions, argmax, indexing,
    string formatting, the order of the calls made on the PDF object) is
    embedded as executable definitions; what the libraries compute is taken
    as a record of functions, [Libs], over which every theorem quantifies.

    Conventions.
    - Floating-point numbers are rationals ([Q]).  The two products with
      100 in [predict_image] are rounded to the floating-point type NumPy
      computes them in ([times_100]); the other arithmetic is exact.
    - Python exceptions are the [Raise] branch of [Result]; a request
      handler that returns [Raise e] lets [e] escape to the web framework.
    - Mutable Python objects (the Keras model, the FPDF document) live in a
      store addressed by location; [print] and the library calls made on
      behalf of a request are recorded in a chronological log. *)

From Stdlib Require Import ZArith QArith Qround Qabs Qpower Lqa List String Ascii Lia Bool.
From Stdlib Require Import DecimalString.
From stdpp Require Import gmap strings list fin_maps.
Import ListNotations.

Local Open Scope string_scope.
Local Open Scope list_scope.
Local Open Scope nat_scope.

(** ** Data *)

Abbreviation bytes := (list Byte.byte) (only parsing).

(** A decoded image: rows of pixels, three [uint8] channels each. *)
Abbreviation Pixel := ((Z * Z * Z)%type) (only parsing).
Abbreviation Image := (list (list Pixel)) (only parsing).

(** A normalised image: rows of pixels, three real channels each. *)
Abbreviation FPixel := ((Q * Q * Q)%type) (only parsing).
Abbreviation Tensor := (list (list FPixel)) (only parsing).

(** A single-channel saliency map. *)
Abbreviation Cam := (list (list Q)) (only parsing).

(** ** Exceptions *)

Inductive exn : Type :=
| CvError (msg : string)          (* cv2.error *)
| BinasciiError (msg : string)    (* binascii.Error, raised by base64 *)
| FpdfError (msg : string)        (* raised by FPDF.image *)
| KeyError (key : string)
| IndexError (msg : string)
| ValueError (msg : string)
| AttributeError (msg : string)
| VisError (msg : string)         (* raised inside tf-keras-vis *)
| OSError (msg : string).         (* raised by load_weights *)

(** [str(e)], as interpolated by an f-string. *)
Definition str_exn (e : exn) : string :=
  match e with
  | CvError m | BinasciiError m | FpdfError m | IndexError m
  | ValueError m | AttributeError m | VisError m | OSError m => m
  | KeyError k => "'" ++ k ++ "'"
  end.

Inductive Result (A : Type) : Type :=
| Ok (a : A)
| Raise (e : exn).
Arguments Ok {A} a.
Arguments Raise {A} e.

(** ** The store *)

Inductive Activation : Type := Softmax | Linear.

Abbreviation Weights := (list Q) (only parsing).

(** A Keras model object: its layer weights and the activation of its
    last layer. *)
Record ModelObj : Type := mkModel {
  weights : Weights;
  activation : Activation
}.

(** What an FPDF object has been asked to draw, in call order. *)
Inductive PdfOp : Type :=
| OpAddPage
| OpSetFont (family style : string) (size : Z)
| OpCell (w h : Z) (txt : string) (border ln : Z) (align : string)
| OpLn (h : Z)
| OpSetY (y : Z)
| OpImage (data : bytes) (w : Z).

Record PdfObj : Type := mkPdf {
  page : nat;
  content : list PdfOp
}.

(** Locations in the store. *)
Abbreviation loc := nat (only parsing).

Inductive Event : Type :=
| EvPrint (s : string)
| EvImdecode
| EvCvtColor
| EvResize
| EvPredict (m : loc)
| EvGradcam (m : loc) (target : nat).

Record State : Type := mkState {
  models : list ModelObj;
  pdfs : list PdfObj;
  log : list Event
}.

(** ** The libraries *)

(** The two floating-point types NumPy computes in here. *)
Inductive Dtype : Type := Float32 | Float64.

Record Libs : Type := mkLibs {
  (* cv2.imdecode(buf, IMREAD_COLOR): [None] when the buffer is no image *)
  lib_imdecode : bytes -> option Image;
  (* cv2.resize(img, (w, h)) *)
  lib_resize : Image -> nat -> nat -> Image;
  (* forward pass of the network on one sample *)
  lib_forward : Weights -> Activation -> Tensor -> list Q;
  (* Grad-CAM of one sample for one target class *)
  lib_gradcam : ModelObj -> nat -> Tensor -> Result Cam;
  (* the 256-entry table of cv2.COLORMAP_JET *)
  lib_jet : Z -> Pixel;
  (* cv2.imencode(".jpg", img) *)
  lib_imencode_jpg : Image -> bytes;
  lib_b64encode : bytes -> string;
  lib_b64decode : string -> Result bytes;
  (* what FPDF.image does with the bytes before drawing them *)
  lib_load_image : bytes -> Result unit;
  (* datetime.now().strftime('%Y-%m-%d %H:%M:%S') *)
  lib_now : string;
  (* the type NumPy gives the product of a float32 scalar and a Python
     int: float32 from NumPy 2 on, float64 under the earlier promotion *)
  lib_scalar_dtype : Dtype
}.

(** ** A state-and-exception monad *)

Definition M (A : Type) : Type := State -> Result A * State.

Definition ret {A} (a : A) : M A := fun s => (Ok a, s).

Definition bind {A B} (c : M A) (k : A -> M B) : M B :=
  fun s =>
    match c s with
    | (Ok a, s') => k a s'
    | (Raise e, s') => (Raise e, s')
    end.

Definition raise {A} (e : exn) : M A := fun s => (Raise e, s).

(** [try: c  except Exception as e: h e].  Effects of [c] up to the
    exception are kept. *)
Definition try_except {A} (c : M A) (h : exn -> M A) : M A :=
  fun s =>
    match c s with
    | (Ok a, s') => (Ok a, s')
    | (Raise e, s') => h e s'
    end.

Definition lift {A} (r : Result A) : M A := fun s => (r, s).

Definition emit (e : Event) : M unit :=
  fun s => (Ok tt, mkState (models s) (pdfs s) (log s ++ [e])).

Definition print (msg : string) : M unit := emit (EvPrint msg).

Declare Scope py_scope.
Delimit Scope py_scope with py.
Notation "'let*' x ':=' c 'in' k" := (bind c (fun x => k))
  (at level 10, x pattern, c at level 100, k at level 200) : py_scope.
Notation "c '>>>' k" := (bind c (fun _ => k))
  (at level 100, k at level 200, right associativity) : py_scope.
Local Open Scope py_scope.

(** ** Python built-ins and NumPy *)

(** [l[i]] for a non-negative index. *)
Definition py_index {A} (l : list A) (i : nat) : Result A :=
  match l !! i with
  | Some a => Ok a
  | None => Raise (IndexError "index out of range")
  end.

(** [d[k]] on a dict. *)
Definition py_getitem (d : gmap string string) (k : string) : Result string :=
  match d !! k with
  | Some v => Ok v
  | None => Raise (KeyError k)
  end.

Definition Qltb (a b : Q) : bool := negb (Qle_bool b a).

(** The scan of [np.argmax]: the running best is replaced only by a
    strictly larger entry, so the first maximal entry wins. *)
Fixpoint argmax_from (best_i : nat) (best : Q) (i : nat) (l : list Q) : nat :=
  match l with
  | [] => best_i
  | x :: l' =>
      if Qltb best x then argmax_from i x (S i) l'
      else argmax_from best_i best (S i) l'
  end.

Definition argmax (l : list Q) : nat :=
  match l with
  | [] => 0
  | x :: l' => argmax_from 0 x 1 l'
  end.

Definition np_argmax (l : list Q) : Result nat :=
  match l with
  | [] => Raise (ValueError "attempt to get argmax of an empty sequence")
  | _ :: _ => Ok (argmax l)
  end.

(** The sum of an array. *)
Definition Qsum (l : list Q) : Q := fold_right Qplus 0%Q l.

(** Round to the nearest integer, ties to even: the rounding of
    [format(x, ".2f")] and of [cvRound]. *)
Definition round_half_even (q : Q) : Z :=
  let f := Qfloor q in
  let r := (q - inject_Z f)%Q in
  match (r ?= 1 # 2)%Q with
  | Lt => f
  | Gt => (f + 1)%Z
  | Eq => if Z.even f then f else (f + 1)%Z
  end.

Definition Z_to_string (z : Z) : string :=
  match z with
  | Zneg p => "-" ++ NilZero.string_of_uint (N.to_uint (Npos p))
  | _ => NilZero.string_of_uint (N.to_uint (Z.to_N z))
  end.

Definition two_digits (z : Z) : string :=
  (if (z <? 10)%Z then "0" else "") ++ Z_to_string z.

(** [f"{x:.2f}"]. *)
Definition format_2f (x : Q) : string :=
  let n := round_half_even (Qabs x * 100)%Q in
  (if Qltb x 0 then "-" else "")
    ++ Z_to_string (n / 100)%Z ++ "." ++ two_digits (n mod 100)%Z.

(** ** Floating-point arithmetic

    A finite IEEE 754 number is identified with the rational it denotes.
    An operation on such numbers returns the exact result rounded to the
    nearest number of the format, ties to the even significand.  Products
    here stay far below the largest finite number, so overflow to
    infinity is left out, as are NaNs. *)

Definition pow2 (e : Z) : Q := (2 ^ e)%Q.

(** For [x] other than 0, the exponent [e] with [2^e <= |x| < 2^(e+1)]. *)
Definition binade (x : Q) : Z :=
  let e0 := (Z.log2 (Z.abs (Qnum x)) - Z.log2 (Zpos (Qden x)))%Z in
  if Qle_bool (pow2 e0) (Qabs x) then e0 else (e0 - 1)%Z.

(** Rounding to the format with [prec] significant bits whose smallest
    positive number is [2^emin]: the spacing of the format around [x] is
    [2^e] with [e] as below, and [x] goes to the nearest multiple of it. *)
Definition round_binary (prec emin : Z) (x : Q) : Q :=
  if Qeq_bool x 0 then 0%Q
  else
    let e := Z.max (binade x - prec + 1) emin in
    (inject_Z (round_half_even (x / pow2 e)) * pow2 e)%Q.

Definition as_dtype (d : Dtype) (x : Q) : Q :=
  match d with
  | Float32 => round_binary 24 (-149) x
  | Float64 => round_binary 53 (-1074) x
  end.

(** [x * 100] computed in type [d]; 100 is a number of both types. *)
Definition times_100 (d : Dtype) (x : Q) : Q := as_dtype d (x * 100).

(** ** Store access *)

Definition deref_model (m : loc) : M ModelObj :=
  fun s =>
    match models s !! m with
    | Some obj => (Ok obj, s)
    | None => (Raise (AttributeError "no such model object"), s)
    end.

Definition alloc_model (obj : ModelObj) : M loc :=
  fun s => (Ok (length (models s)),
            mkState (models s ++ [obj]) (pdfs s) (log s)).

Definition store_model (m : loc) (obj : ModelObj) : M unit :=
  fun s => (Ok tt, mkState (<[m := obj]> (models s)) (pdfs s) (log s)).

Definition deref_pdf (p : loc) : M PdfObj :=
  fun s =>
    match pdfs s !! p with
    | Some obj => (Ok obj, s)
    | None => (Raise (AttributeError "no such document object"), s)
    end.

Definition alloc_pdf (obj : PdfObj) : M loc :=
  fun s => (Ok (length (pdfs s)),
            mkState (models s) (pdfs s ++ [obj]) (log s)).

Definition store_pdf (p : loc) (obj : PdfObj) : M unit :=
  fun s => (Ok tt, mkState (models s) (<[p := obj]> (pdfs s)) (log s)).

Fixpoint result_mapM {A B} (f : A -> Result B) (l : list A) : Result (list B) :=
  match l with
  | [] => Ok []
  | a :: l' =>
      match f a with
      | Raise e => Raise e
      | Ok b =>
          match result_mapM f l' with
          | Raise e => Raise e
          | Ok bs => Ok (b :: bs)
          end
      end
  end.

(** ** Model construction and start-up (main.py, lines 34-56) *)

Definition IMG_SIZE : nat := 224.
Definition NUM_CLASSES : nat := 5.

(** [build_model]: a fresh network whose head is a softmax layer;
    [init] stands for the initial weight values Keras draws. *)
Definition build_model (init : Weights) : M loc :=
  alloc_model (mkModel init Softmax).

(** [model.load_weights(path)]; [file] is what reading the path gives. *)
Definition load_weights (m : loc) (file : Result Weights) : M unit :=
  let* w := lift file in
  let* obj := deref_model m in
  store_model m (mkModel w (activation obj)).

(** The module-level [try] that binds the global [model]. *)
Definition startup (init : Weights) (file : Result Weights) : M (option loc) :=
  try_except
    (let* m := build_model init in
     load_weights m file >>>
     print "Model structure built and weights loaded successfully." >>>
     ret (Some m))
    (fun e =>
       print ("Error loading model: " ++ str_exn e) >>>
       ret None).

Definition CLASS_NAMES : list string :=
  ["No DR"; "Mild"; "Moderate"; "Severe"; "Proliferative DR"].

(** ** Pixel arithmetic *)

(** [x.astype(np.uint8)] on a real: truncate toward zero, keep 8 bits. *)
Definition astype_uint8 (q : Q) : Z :=
  ((if Qle_bool 0 q then Qfloor q else Qceiling q) mod 256)%Z.

(** OpenCV's [saturate_cast<uchar>]. *)
Definition saturate_uint8 (z : Z) : Z := Z.max 0 (Z.min 255 z).

Definition map_pixel {A B} (f : A -> B) (p : A * A * A) : B * B * B :=
  let '(a, b, c) := p in (f a, f b, f c).

Definition zip_pixel {A B C} (f : A -> B -> C)
    (p : A * A * A) (q : B * B * B) : C * C * C :=
  let '(a, b, c) := p in
  let '(x, y, z) := q in (f a x, f b y, f c z).

(** [img / 255.0] *)
Definition normalize (img : Image) : Tensor :=
  map (map (map_pixel (fun c => (inject_Z c / 255)%Q))) img.

(** [(cam * 255).astype(np.uint8)] *)
Definition cam_to_uint8 (cam : Cam) : list (list Z) :=
  map (map (fun v => astype_uint8 (v * 255)%Q)) cam.

(** [(t * 255).astype(np.uint8)] *)
Definition tensor_to_uint8 (t : Tensor) : Image :=
  map (map (map_pixel (fun v => astype_uint8 (v * 255)%Q))) t.

Definition same_shape {A B} (a : list (list A)) (b : list (list B)) : bool :=
  (length a =? length b)
  && forallb (fun '(r1, r2) => length r1 =? length r2) (combine a b).

(** One channel of [cv2.addWeighted]. *)
Definition blend (alpha beta gamma : Q) (x y : Z) : Z :=
  saturate_uint8
    (round_half_even (inject_Z x * alpha + inject_Z y * beta + gamma)%Q).

(** [cv2.addWeighted(src1, alpha, src2, beta, gamma)] on [uint8] images;
    OpenCV rejects operands of different sizes. *)
Definition cv2_addWeighted (src1 : Image) (alpha : Q) (src2 : Image)
    (beta gamma : Q) : Result Image :=
  if same_shape src1 src2 then
    Ok (map (fun '(r1, r2) =>
               map (fun '(p1, p2) => zip_pixel (blend alpha beta gamma) p1 p2)
                   (combine r1 r2))
            (combine src1 src2))
  else Raise (CvError "Sizes of input arguments do not match").

(** The JSON bodies the /predict endpoint answers with. *)
Record Prediction : Type := mkPrediction {
  filename : string;
  diagnosis : string;
  confidence : string;
  probabilities : list Q;
  heatmap_image : string
}.

Inductive Response : Type :=
| ErrorResponse (error : string)
| PredictionResponse (p : Prediction).

Section Inference.

Variable L : Libs.

(** The module-level global [model]: a reference to the loaded network,
    or [None] when loading failed. *)
Variable model : option loc.

(** *** OpenCV calls *)

Definition cv2_imdecode (buf : bytes) : M (option Image) :=
  emit EvImdecode >>>
  match buf with
  | [] => raise (CvError "(-215:Assertion failed) !buf.empty() in function 'imdecode_'")
  | _ :: _ => ret (lib_imdecode L buf)
  end.

Definition swap_rb (p : Pixel) : Pixel :=
  let '(b, g, r) := p in (r, g, b).

(** [cv2.cvtColor(img, cv2.COLOR_BGR2RGB)]; [img] is [None] when
    [imdecode] found no image. *)
Definition cv2_cvtColor_BGR2RGB (img : option Image) : M Image :=
  emit EvCvtColor >>>
  match img with
  | None => raise (CvError "(-215:Assertion failed) !_src.empty() in function 'cvtColor'")
  | Some i => ret (map (map swap_rb) i)
  end.

Definition cv2_resize (img : Image) (w h : nat) : M Image :=
  emit EvResize >>> ret (lib_resize L img w h).

(** [cv2.applyColorMap(gray, cv2.COLORMAP_JET)] *)
Definition cv2_applyColorMap_JET (gray : list (list Z)) : Image :=
  map (map (lib_jet L)) gray.

(** *** Keras and tf-keras-vis calls *)

(** [m.predict(batch)] *)
Definition model_predict (m : loc) (batch : list Tensor) : M (list (list Q)) :=
  let* obj := deref_model m in
  emit (EvPredict m) >>>
  ret (map (lib_forward L (weights obj) (activation obj)) batch).

(** [ReplaceToLinear()]: called on a model, it sets the activation of
    that model's last layer to linear, in place. *)
Definition ReplaceToLinear (m : loc) : M unit :=
  let* obj := deref_model m in
  store_model m (mkModel (weights obj) Linear).

(** [Gradcam(model, model_modifier=..., clone=...)]: with [clone] the
    visualiser works on a copy of the model carrying the same weights,
    otherwise on the model it was given; the modifier is then applied
    to whichever it works on. *)
Definition Gradcam_init (m : option loc) (model_modifier : loc -> M unit)
    (clone : bool) : M loc :=
  match m with
  | None => raise (AttributeError "'NoneType' object has no attribute 'layers'")
  | Some m =>
      let* own :=
        (if clone then let* obj := deref_model m in alloc_model obj
         else ret m) in
      model_modifier own >>> ret own
  end.

(** [gradcam(CategoricalScore([target]), batch, penultimate_layer=-1)] *)
Definition Gradcam_call (g : loc) (target : nat) (batch : list Tensor)
    : M (list Cam) :=
  let* obj := deref_model g in
  emit (EvGradcam g target) >>>
  lift (result_mapM (lib_gradcam L obj target) batch).

(** *** XAI: generate the Grad-CAM heat map (lines 59-68) *)

Definition generate_gradcam (image_batch : list Tensor)
    (prediction_index : nat) : M string :=
  let* gradcam := Gradcam_init model ReplaceToLinear true in
  let* heatmap := Gradcam_call gradcam prediction_index image_batch in
  let* heatmap0 := lift (py_index heatmap 0) in
  let heatmap := cam_to_uint8 heatmap0 in
  let* image0 := lift (py_index image_batch 0) in
  let original_image := tensor_to_uint8 image0 in
  let heatmap_img := cv2_applyColorMap_JET heatmap in
  let* superimposed_img :=
    lift (cv2_addWeighted heatmap_img (2 # 5) original_image (3 # 5) 0) in
  let buffer := lib_imencode_jpg L superimposed_img in
  ret (lib_b64encode L buffer).

(** *** Prediction (lines 71-82) *)

Definition preprocess_and_predict (image_bytes : bytes)
    : M (option (list Q * string)) :=
  match model with
  | None => ret None
  | Some m =>
      let* img := cv2_imdecode image_bytes in
      let* img := cv2_cvtColor_BGR2RGB img in
      let* img_resized := cv2_resize img IMG_SIZE IMG_SIZE in
      let img_normalized := normalize img_resized in
      let img_batch := [img_normalized] in
      let* predictions := model_predict m img_batch in
      let* prediction_array := lift (py_index predictions 0) in
      let* predicted_index := lift (np_argmax prediction_array) in
      let* heatmap_base64 := generate_gradcam img_batch predicted_index in
      ret (Some (prediction_array, heatmap_base64))
  end.

(** *** The /predict endpoint (lines 126-141) *)

Definition predict_image (file_name : string) (image_bytes : bytes)
    : M Response :=
  let* result := preprocess_and_predict image_bytes in
  match result with
  | None => ret (ErrorResponse "Model not loaded or prediction failed")
  | Some (prediction_array, heatmap) =>
      let* predicted_index := lift (np_argmax prediction_array) in
      let* p := lift (py_index prediction_array predicted_index) in
      let confidence := times_100 (lib_scalar_dtype L) p in
      let* label := lift (py_index CLASS_NAMES predicted_index) in
      ret (PredictionResponse
             (mkPrediction file_name label
                (format_2f confidence ++ "%")
                (map (times_100 Float32) prediction_array)
                heatmap))
  end.

End Inference.

(** ** PDF generation (lines 85-120) *)

Section Report.

Variable L : Libs.

Definition pdf_emit (pdf : loc) (op : PdfOp) : M unit :=
  let* obj := deref_pdf pdf in
  store_pdf pdf (mkPdf (page obj) (content obj ++ [op])).

Definition set_font (pdf : loc) (family style : string) (size : Z) : M unit :=
  pdf_emit pdf (OpSetFont family style size).

Definition cell (pdf : loc) (w h : Z) (txt : string) (border ln : Z)
    (align : string) : M unit :=
  pdf_emit pdf (OpCell w h txt border ln align).

Definition ln (pdf : loc) (h : Z) : M unit := pdf_emit pdf (OpLn h).

Definition set_y (pdf : loc) (y : Z) : M unit := pdf_emit pdf (OpSetY y).

Definition page_no (pdf : loc) : M nat :=
  let* obj := deref_pdf pdf in ret (page obj).

(** [PDF.header] *)
Definition header (self : loc) : M unit :=
  set_font self "Arial" "B" 15 >>>
  cell self 0 10 "AuraSight AI Diagnostic Report" 0 1 "C" >>>
  ln self 10.

(** [PDF.footer] *)
Definition footer (self : loc) : M unit :=
  set_y self (-15) >>>
  set_font self "Arial" "I" 8 >>>
  let* n := page_no self in
  cell self 0 10 ("Page " ++ Z_to_string (Z.of_nat n)) 0 0 "C".

(** [PDF()] *)
Definition PDF_new : M loc := alloc_pdf (mkPdf 0 []).

(** [FPDF.add_page]: closes the page in progress with its footer, opens
    the next one and draws its header. *)
Definition add_page (pdf : loc) : M unit :=
  let* obj := deref_pdf pdf in
  (if (0 <? page obj)%nat then footer pdf else ret tt) >>>
  let* obj := deref_pdf pdf in
  store_pdf pdf (mkPdf (S (page obj)) (content obj ++ [OpAddPage])) >>>
  header pdf.

(** [FPDF.image(io.BytesIO(data), w=...)]: the bytes are parsed first, and
    nothing is drawn when parsing fails. *)
Definition image (pdf : loc) (data : bytes) (w : Z) : M unit :=
  lift (lib_load_image L data) >>>
  pdf_emit pdf (OpImage data w).

(** [FPDF.output()]: closes the last page and returns the document. *)
Definition output (pdf : loc) : M (list PdfOp) :=
  let* obj := deref_pdf pdf in
  (if (page obj =? 0)%nat then add_page pdf else ret tt) >>>
  footer pdf >>>
  let* obj := deref_pdf pdf in
  ret (content obj).

(** The body of the [for] loop of [create_pdf_report], with its [try]. *)
Definition embed_block (pdf : loc) (title b64_string : string) : M unit :=
  try_except
    (let* image_bytes := lift (lib_b64decode L b64_string) in
     set_font pdf "Arial" "B" 14 >>>
     cell pdf 0 10 title 0 1 "" >>>
     image pdf image_bytes 150 >>>
     ln pdf 10)
    (fun e => print ("Could not process image for PDF: " ++ str_exn e)).

Fixpoint for_each {A} (body : A -> M unit) (l : list A) : M unit :=
  match l with
  | [] => ret tt
  | a :: l' => body a >>> for_each body l'
  end.

Definition create_pdf_report (data : gmap string string) : M (list PdfOp) :=
  let* pdf := PDF_new in
  add_page pdf >>>
  set_font pdf "Arial" "B" 12 >>>
  cell pdf 0 10 ("Report Date: " ++ lib_now L) 0 1 "" >>>
  let* fname := lift (py_getitem data "filename") in
  cell pdf 0 10 ("Patient File: " ++ fname) 0 1 "" >>>
  ln pdf 5 >>>
  set_font pdf "Arial" "B" 14 >>>
  cell pdf 0 10 "Diagnosis Result" 0 1 "" >>>
  set_font pdf "Arial" "" 12 >>>
  let* diag := lift (py_getitem data "diagnosis") in
  cell pdf 0 10 ("Condition: " ++ diag) 0 1 "" >>>
  let* conf := lift (py_getitem data "confidence") in
  cell pdf 0 10 ("Confidence: " ++ conf) 0 1 "" >>>
  ln pdf 10 >>>
  let* original := lift (py_getitem data "original_image") in
  let* heat := lift (py_getitem data "heatmap_image") in
  for_each (fun '(title, b64_string) => embed_block pdf title b64_string)
    [("Original Scan", original); ("Model Focus Heatmap", heat)] >>>
  output pdf.

End Report.

(** ** The /export_pdf endpoint (lines 143-145) *)

(** What the endpoint hands to the framework: the document, its media
    type and the response headers. *)
Record StreamingResponse : Type := mkStreamingResponse {
  sr_content : list PdfOp;
  sr_media_type : string;
  sr_headers : list (string * string)
}.

Definition export_pdf (L : Libs) (data : gmap string string)
    : M StreamingResponse :=
  let* pdf_bytes := create_pdf_report L data in
  ret (mkStreamingResponse pdf_bytes "application/pdf"
         [("Content-Disposition", "attachment;filename=AuraSight_Report.pdf")]).

(** ** Vocabulary of the statements *)

(** What it means for [i] to be the index [np.argmax] returns on [p]:
    the entry at [i] bounds every entry, and strictly bounds every
    earlier one. *)
Definition first_max (p : list Q) (i : nat) : Prop :=
  exists q, p !! i = Some q
    /\ (forall j x, p !! j = Some x -> (x <= q)%Q)
    /\ (forall j x, (j < i)%nat -> p !! j = Some x -> (x < q)%Q).

(** The upload is a buffer OpenCV decodes to [img]. *)
Definition decodes_to (L : Libs) (buf : bytes) (img : Image) : Prop :=
  buf <> [] /\ lib_imdecode L buf = Some img.

(** The tensor the pipeline feeds to the network for a decoded image. *)
Definition input_tensor (L : Libs) (img : Image) : Tensor :=
  normalize (lib_resize L (map (map swap_rb) img) IMG_SIZE IMG_SIZE).

(** The probability array the network [obj] returns for it. *)
Definition distribution (L : Libs) (obj : ModelObj) (img : Image) : list Q :=
  lib_forward L (weights obj) (activation obj) (input_tensor L img).

(** A copy of [obj] whose last activation is the linear pass-through. *)
Definition linearized (obj : ModelObj) : ModelObj :=
  mkModel (weights obj) Linear.

(** The picture [generate_gradcam] composes from a saliency map and the
    input tensor. *)
Definition overlay (L : Libs) (cam : Cam) (t : Tensor) : Result Image :=
  cv2_addWeighted (cv2_applyColorMap_JET L (cam_to_uint8 cam)) (2 # 5)
                  (tensor_to_uint8 t) (3 # 5) 0.

(** The value [generate_gradcam] computes when the visualiser works on
    [clone]. *)
Definition explanation (L : Libs) (clone : ModelObj) (t : Tensor)
    (target : nat) : Result string :=
  match lib_gradcam L clone target t with
  | Raise e => Raise e
  | Ok cam =>
      match overlay L cam t with
      | Raise e => Raise e
      | Ok img => Ok (lib_b64encode L (lib_imencode_jpg L img))
      end
  end.

(** The target classes of the Grad-CAM calls recorded in a log. *)
Definition gradcam_targets (l : list Event) : list nat :=
  flat_map (fun e => match e with EvGradcam _ t => [t] | _ => [] end) l.

(** The state a request leaves behind when the model is loaded and the
    upload decodes: one linearised clone more, five library calls more. *)
Definition after_request (s : State) (m : loc) (obj : ModelObj)
    (target : nat) : State :=
  mkState (models s ++ [linearized obj]) (pdfs s)
          (log s ++ [EvImdecode; EvCvtColor; EvResize; EvPredict m;
                     EvGradcam (length (models s)) target]).

(** The calls a report makes on its document before the image blocks. *)
Definition report_head (L : Libs) (fname diag conf : string) : list PdfOp :=
  [OpAddPage;
   OpSetFont "Arial" "B" 15;
   OpCell 0 10 "AuraSight AI Diagnostic Report" 0 1 "C";
   OpLn 10;
   OpSetFont "Arial" "B" 12;
   OpCell 0 10 ("Report Date: " ++ lib_now L) 0 1 "";
   OpCell 0 10 ("Patient File: " ++ fname) 0 1 "";
   OpLn 5;
   OpSetFont "Arial" "B" 14;
   OpCell 0 10 "Diagnosis Result" 0 1 "";
   OpSetFont "Arial" "" 12;
   OpCell 0 10 ("Condition: " ++ diag) 0 1 "";
   OpCell 0 10 ("Confidence: " ++ conf) 0 1 "";
   OpLn 10].

(** The footer of a one-page report. *)
Definition report_foot : list PdfOp :=
  [OpSetY (-15); OpSetFont "Arial" "I" 8; OpCell 0 10 "Page 1" 0 0 "C"].

(** The caption drawn above an embedded image. *)
Definition caption (title : string) : PdfOp := OpCell 0 10 title 0 1 "".

(** What one pass of the loop leaves in the document ... *)
Definition block_ops (L : Libs) (title b64_string : string) : list PdfOp :=
  match lib_b64decode L b64_string with
  | Raise _ => []
  | Ok data =>
      [OpSetFont "Arial" "B" 14; caption title]
        ++ match lib_load_image L data with
           | Raise _ => []
           | Ok _ => [OpImage data 150; OpLn 10]
           end
  end.

(** ... and in the log. *)
Definition block_log (L : Libs) (b64_string : string) : list Event :=
  let failed e := [EvPrint ("Could not process image for PDF: " ++ str_exn e)] in
  match lib_b64decode L b64_string with
  | Raise e => failed e
  | Ok data =>
      match lib_load_image L data with
      | Raise e => failed e
      | Ok _ => []
      end
  end.

(** The images drawn in a document, with their widths, in the order of
    drawing. *)
Definition drawn_images (doc : list PdfOp) : list (bytes * Z) :=
  flat_map (fun op => match op with OpImage d w => [(d, w)] | _ => [] end) doc.



(** The entry of a two-dimensional array at row [y], column [x]. *)
Definition at2 {A} (a : list (list A)) (y x : nat) : option A :=
  match a !! y with
  | Some row => row !! x
  | None => None
  end.

Definition is_byte (z : Z) : Prop := (0 <= z <= 255)%Z.

Definition pixel_bytes (p : Pixel) : Prop :=
  let '(a, b, c) := p in is_byte a /\ is_byte b /\ is_byte c.

Definition unit_interval (q : Q) : Prop := (0 <= q <= 1)%Q.

Definition fpixel_unit (p : FPixel) : Prop :=
  let '(a, b, c) := p in
  unit_interval a /\ unit_interval b /\ unit_interval c.

(** [v] is the byte nearest to 40% of [h] plus 60% of [o]: five times
    [v] is within 2 of [2 h + 3 o], which no other integer is. *)
Definition blend_40_60 (v h o : Z) : Prop :=
  is_byte v /\ (Z.abs (5 * v - (2 * h + 3 * o)) <= 2)%Z.

(** A relation on channels, lifted to pixels. *)
Definition pixel_rel (R : Z -> Z -> Z -> Prop) (out heat orig : Pixel) : Prop :=
  let '(a, b, c) := out in
  let '(h1, h2, h3) := heat in
  let '(o1, o2, o3) := orig in
  R a h1 o1 /\ R b h2 o2 /\ R c h3 o3.

(** The character of a decimal digit. *)
Definition digit_char (k : Z) : ascii := ascii_of_nat (48 + Z.to_nat k).

(** The numeral of [n] hundredths, for [n] not negative: the integer
    part as the standard library prints a natural number, a point, and
    the two digits of the remainder. *)
Definition hundredths (n : Z) : string :=
  (NilZero.string_of_uint (N.to_uint (Z.to_N (n / 100)))
   ++ "."
   ++ String (digit_char (n mod 100 / 10))
        (String (digit_char (n mod 10)) ""))%string.

(** [n] is the integer nearest to [x], and the even one of the two when
    [x] lies halfway between two integers. *)
Definition nearest_even (x : Q) (n : Z) : Prop :=
  (Qabs (inject_Z n - x) <= 1 # 2)%Q
  /\ ((Qabs (inject_Z n - x) == 1 # 2)%Q -> Z.even n = true).

(** Every pixel of an image holds three bytes. *)
Definition image_bytes (img : Image) : Prop :=
  forall y x p, at2 img y x = Some p -> pixel_bytes p.

(** The keys [create_pdf_report] reads, in the order it reads them. *)
Definition REPORT_KEYS : list string :=
  ["filename"; "diagnosis"; "confidence"; "original_image"; "heatmap_image"].

(** The first of them a payload lacks. *)
Definition first_missing (data : gmap string string) : option string :=
  find (fun k => match data !! k with Some _ => false | None => true end)
       REPORT_KEYS.

(** ** A concrete instance of the libraries

    Small executable stand-ins on which the embedding can be run: a raw
    one-row image format, nearest-neighbour resizing, a bias-only
    network, and standard base64 with the lenient decoding of
    [base64.b64decode]. *)

Module Fixture.

Definition byte_Z (b : Byte.byte) : Z := Z.of_N (Byte.to_N b).

Definition Z_byte (z : Z) : Byte.byte :=
  match Byte.of_N (Z.to_N (z mod 256)) with
  | Some b => b
  | None => Byte.x00
  end.

Fixpoint triples (l : bytes) : list Pixel :=
  match l with
  | b :: g :: r :: l' => (byte_Z b, byte_Z g, byte_Z r) :: triples l'
  | _ => []
  end.

(** A buffer is an image when it starts with the byte ['I'] and carries at
    least one BGR triple; the image has one row. *)
Definition imdecode (buf : bytes) : option Image :=
  match buf with
  | Byte.x49 :: body =>
      match triples body with
      | [] => None
      | row => Some [row]
      end
  | _ => None
  end.

Definition nearest {A} (d : A) (src : list A) (n : nat) : list A :=
  map (fun i => nth (N.to_nat (N.of_nat i * N.of_nat (length src) / N.of_nat n)) src d)
      (seq 0 n).

Definition resize (img : Image) (w h : nat) : Image :=
  map (fun row => nearest (0, 0, 0)%Z row w) (nearest [] img h).

(** The head's scores are the first [NUM_CLASSES] weights; the softmax is
    replaced by division by their sum. *)
Definition forward (w : Weights) (a : Activation) (t : Tensor) : list Q :=
  let scores := firstn NUM_CLASSES (w ++ repeat 0%Q NUM_CLASSES) in
  match a with
  | Linear => scores
  | Softmax =>
      let total := Qsum scores in
      if Qltb 0 total then map (fun x => (x / total)%Q) scores
      else repeat (1 # 5)%Q NUM_CLASSES
  end.

(** The saliency of a pixel is its first channel; targets outside the
    head are rejected. *)
Definition gradcam (obj : ModelObj) (target : nat) (t : Tensor) : Result Cam :=
  if (target <? NUM_CLASSES)%nat then Ok (map (map (fun p => fst (fst p))) t)
  else Raise (VisError "target class out of range").

Definition jet (v : Z) : Pixel :=
  ((255 - v)%Z, (if (v <? 128)%Z then 2 * v else 2 * (255 - v))%Z, v).

Definition imencode_jpg (img : Image) : bytes :=
  Byte.xff :: Byte.xd8 ::
  flat_map (flat_map (fun '(a, b, c) => [Z_byte a; Z_byte b; Z_byte c])) img.

Definition alphabet : bytes :=
  list_byte_of_string
    "ABCDEFGHIJKLMNOPQRSTUVWXYZabcdefghijklmnopqrstuvwxyz0123456789+/".

Definition pad : Byte.byte := Byte.x3d.

Fixpoint sextets (l : list N) : list (option N) :=
  match l with
  | a :: b :: c :: l' =>
      [Some (a / 4); Some ((a mod 4) * 16 + b / 16);
       Some ((b mod 16) * 4 + c / 64); Some (c mod 64)]%N ++ sextets l'
  | [a; b] =>
      [Some (a / 4); Some ((a mod 4) * 16 + b / 16);
       Some ((b mod 16) * 4); None]%N
  | [a] => [Some (a / 4); Some ((a mod 4) * 16); None; None]%N
  | [] => []
  end.

Definition b64encode (data : bytes) : string :=
  string_of_list_byte
    (map (fun o => match o with
                   | Some n => nth (N.to_nat n) alphabet pad
                   | None => pad
                   end)
         (sextets (map Byte.to_N data))).

Fixpoint index_of (b : Byte.byte) (l : bytes) (i : N) : option N :=
  match l with
  | [] => None
  | x :: l' => if Byte.eqb b x then Some i else index_of b l' (i + 1)%N
  end.

(** The decoder's registers: position in the current quad, pending bits,
    pad characters seen in a row, bytes produced (newest first). *)
Record Quad : Type := mkQuad {
  quad_pos : N;
  leftchar : N;
  pads : N;
  produced : list N
}.

(** The lenient scan: characters outside the alphabet are skipped, a
    complete pad sequence ends the input. *)
Fixpoint a2b_scan (l : bytes) (q : Quad) : Quad * bool :=
  match l with
  | [] => (q, false)
  | c :: l' =>
      if Byte.eqb c pad then
        if ((2 <=? quad_pos q) && (4 <=? quad_pos q + (pads q + 1)))%N
        then (q, true)
        else a2b_scan l'
               (if (2 <=? quad_pos q)%N
                then mkQuad (quad_pos q) (leftchar q) (pads q + 1) (produced q)
                else q)
      else
        match index_of c alphabet 0 with
        | None => a2b_scan l' q
        | Some v =>
            a2b_scan l'
              (match quad_pos q with
               | 0 => mkQuad 1 v 0 (produced q)
               | 1 => mkQuad 2 (v mod 16) 0
                        ((leftchar q * 4 + v / 16) :: produced q)
               | 2 => mkQuad 3 (v mod 4) 0
                        ((leftchar q * 16 + v / 4) :: produced q)
               | _ => mkQuad 0 0 0 ((leftchar q * 64 + v) :: produced q)
               end)%N
        end
  end.

Definition b64decode (s : string) : Result bytes :=
  let '(q, done) := a2b_scan (list_byte_of_string s) (mkQuad 0 0 0 []) in
  let out := rev (map (fun n => Z_byte (Z.of_N n)) (produced q)) in
  if done then Ok out
  else if (quad_pos q =? 0)%N then Ok out
  else if (quad_pos q =? 1)%N then
    Raise (BinasciiError
      "Invalid base64-encoded string: number of data characters cannot be 1 more than a multiple of 4")
  else Raise (BinasciiError "Incorrect padding").

(** Bytes are accepted as an image when they open with the JPEG marker. *)
Definition load_image (data : bytes) : Result unit :=
  match data with
  | Byte.xff :: Byte.xd8 :: _ => Ok tt
  | _ => Raise (FpdfError "Unsupported image type")
  end.

Definition libs : Libs :=
  mkLibs imdecode resize forward gradcam jet imencode_jpg
         b64encode b64decode load_image "2025-01-01 12:00:00" Float32.

Definition empty_state : State := mkState [] [] [].

(** A process in which the weight file was read. *)
Definition weights_file : Weights := [1; 6; 2; 1; 0]%Q.

(** Text, not an image. *)
Definition text_upload : bytes := list_byte_of_string "hello".

(** One BGR pixel in the raw format, and the image it decodes to. *)
Definition pixel_upload : bytes := [Byte.x49; Byte.x10; Byte.x80; Byte.xf0].
Definition pixel_image : Image := [[(16, 128, 240)%Z]].

(** The store after a start-up that found the weight file. *)
Definition loaded_model : ModelObj := mkModel weights_file Softmax.
Definition loaded_state : State :=
  snd (startup [] (Ok weights_file) empty_state).

(** A network whose two best classes score the same. *)
Definition tied_model : ModelObj := mkModel [2; 6; 6; 1; 0]%Q Softmax.
Definition tied_state : State := mkState [tied_model] [] [].

(** A report payload; ["/9j/"] is the base64 text of the three bytes
    [FF D8 FF], ["A"] is a single data character and decodes to nothing. *)
Definition payload (original heat : string) : gmap string string :=
  list_to_map
    [("filename", "scan.jpg"); ("diagnosis", "Mild");
     ("confidence", "60.00%");
     ("original_image", original); ("heatmap_image", heat)].

Definition jpeg_text : string := "/9j/".
Definition jpeg_bytes : bytes := [Byte.xff; Byte.xd8; Byte.xff].

(** Well-formed base64 of bytes that are no image. *)
Definition garbage_text : string := "aGVsbG8=".

(** A normalised image of two pixels. *)
Definition small_tensor : Tensor :=
  [[(0, 1 # 2, 1)%Q; (1 # 4, 1 # 4, 3 # 4)%Q]].

(** The same libraries with a Grad-CAM that always fails. *)
Definition libs_failing_gradcam : Libs :=
  mkLibs imdecode resize forward
         (fun _ _ _ => Raise (VisError "no gradient for the penultimate layer"))
         jet imencode_jpg b64encode b64decode load_image
         "2025-01-01 12:00:00" Float32.


(** A second image in base64: the bytes [FF D8 00]. *)
Definition jpeg_text2 : string := "/9gA".

(** A decoded image of two rows. *)
Definition small_image : Image :=
  [[(0, 128, 255); (16, 32, 64)]; [(255, 255, 255); (1, 2, 3)]]%Z.

(** The same libraries with a Grad-CAM that returns a map of one cell,
    whatever the size of its input. *)
Definition libs_small_gradcam : Libs :=
  mkLibs imdecode resize forward (fun _ _ _ => Ok [[1 # 2]]%Q)
         jet imencode_jpg b64encode b64decode load_image
         "2025-01-01 12:00:00" Float32.

End Fixture.

(** * Properties *)

(** ** [np.argmax] *)

Lemma Qltb_lt (a b : Q) : Qltb a b = true <-> (a < b)%Q.
Proof.
  unfold Qltb. rewrite negb_true_iff. split.
  - intros H. apply Qnot_le_lt. intros Hle.
    apply Qle_bool_iff in Hle. congruence.
  - intros H. destruct (Qle_bool b a) eqn:E; [|reflexivity].
    apply Qle_bool_iff in E. exfalso. exact (Qlt_not_le _ _ H E).
Qed.

Lemma Qltb_ge (a b : Q) : Qltb a b = false <-> (b <= a)%Q.
Proof.
  unfold Qltb. rewrite negb_false_iff. apply Qle_bool_iff.
Qed.

Lemma argmax_from_first_max (l pre : list Q) (bi : nat) (b : Q) :
  (pre ++ l) !! bi = Some b ->
  (bi < length pre)%nat ->
  (forall j x, (j < length pre)%nat -> (pre ++ l) !! j = Some x -> (x <= b)%Q) ->
  (forall j x, (j < bi)%nat -> (pre ++ l) !! j = Some x -> (x < b)%Q) ->
  first_max (pre ++ l) (argmax_from bi b (length pre) l).
Proof.
  revert pre bi b.
  induction l as [|x l IH]; intros pre bi b Hb Hbi Hle Hlt; simpl.
  - exists b. split; [exact Hb|]. split.
    + intros j y Hy. apply (Hle j); [|exact Hy].
      apply lookup_lt_Some in Hy. rewrite app_nil_r in Hy. exact Hy.
    + exact Hlt.
  - assert (Hx : (pre ++ x :: l) !! length pre = Some x)
      by (rewrite lookup_app_r by lia; now rewrite Nat.sub_diag).
    assert (Hsplit : pre ++ x :: l = (pre ++ [x]) ++ l)
      by now rewrite <- app_assoc.
    assert (Hlen : length (pre ++ [x]) = S (length pre))
      by (rewrite length_app; simpl; lia).
    destruct (Qltb b x) eqn:E.
    + apply Qltb_lt in E.
      rewrite Hsplit, <- Hlen. apply IH.
      * rewrite <- Hsplit. exact Hx.
      * lia.
      * rewrite <- Hsplit. intros j y Hj Hy.
        destruct (decide (j = length pre)) as [->|Hne].
        -- rewrite Hx in Hy. injection Hy as <-. apply Qle_refl.
        -- apply Qle_trans with b; [|now apply Qlt_le_weak].
           apply (Hle j); [lia|exact Hy].
      * rewrite <- Hsplit. intros j y Hj Hy.
        apply Qle_lt_trans with b; [|exact E].
        apply (Hle j); [lia|exact Hy].
    + apply Qltb_ge in E.
      rewrite Hsplit, <- Hlen. apply IH.
      * rewrite <- Hsplit. exact Hb.
      * lia.
      * rewrite <- Hsplit. intros j y Hj Hy.
        destruct (decide (j = length pre)) as [->|Hne].
        -- rewrite Hx in Hy. injection Hy as <-. exact E.
        -- apply (Hle j); [lia|exact Hy].
      * rewrite <- Hsplit. exact Hlt.
Qed.

Lemma argmax_first_max (p : list Q) : p <> [] -> first_max p (argmax p).
Proof.
  destruct p as [|x l]; [congruence|]. intros _.
  change (first_max ([x] ++ l) (argmax_from 0 x (length [x]) l)).
  apply argmax_from_first_max; simpl.
  - reflexivity.
  - lia.
  - intros [|j] y Hj Hy; [|lia]. injection Hy as <-. apply Qle_refl.
  - intros j y Hj. lia.
Qed.

Lemma first_max_lt_length (p : list Q) (i : nat) :
  first_max p i -> (i < length p)%nat.
Proof. intros (q & Hq & _). now apply lookup_lt_Some in Hq. Qed.

Lemma argmax_lt_length (p : list Q) : p <> [] -> (argmax p < length p)%nat.
Proof. intros H. apply first_max_lt_length, argmax_first_max, H. Qed.

(** The index is determined by the two bounds: any two indices that
    satisfy them coincide. *)
Lemma first_max_unique (p : list Q) (i j : nat) :
  first_max p i -> first_max p j -> i = j.
Proof.
  intros (qi & Hi & Hile & Hilt) (qj & Hj & Hjle & Hjlt).
  destruct (Nat.lt_trichotomy i j) as [H|[H|H]]; [|exact H|]; exfalso.
  - specialize (Hjlt i qi H Hi). specialize (Hile j qj Hj).
    exact (Qlt_not_le _ _ Hjlt Hile).
  - specialize (Hilt j qj H Hj). specialize (Hjle i qi Hi).
    exact (Qlt_not_le _ _ Hilt Hjle).
Qed.

(** ** Running the monad *)

Ltac run_step :=
  cbv beta iota delta
    [bind ret raise lift emit print try_except
     deref_model alloc_model store_model deref_pdf alloc_pdf store_pdf];
  cbn [models pdfs log].

Lemma lookup_snoc_eq {A} (l : list A) (x : A) : (l ++ [x]) !! length l = Some x.
Proof. rewrite lookup_app_r by lia. now rewrite Nat.sub_diag. Qed.

Lemma insert_snoc_eq {A} (l : list A) (x y : A) :
  <[length l := y]> (l ++ [x]) = l ++ [y].
Proof.
  rewrite insert_app_r_alt by lia. now rewrite Nat.sub_diag.
Qed.

Lemma generate_gradcam_run (L : Libs) (m : loc) (obj : ModelObj)
    (t : Tensor) (i : nat) (s : State) :
  models s !! m = Some obj ->
  generate_gradcam L (Some m) [t] i s =
    (explanation L (linearized obj) t i,
     mkState (models s ++ [linearized obj]) (pdfs s)
             (log s ++ [EvGradcam (length (models s)) i])).
Proof.
  intros Hm.
  unfold generate_gradcam, Gradcam_init, Gradcam_call, ReplaceToLinear.
  run_step. rewrite Hm. run_step.
  rewrite lookup_snoc_eq. run_step.
  rewrite insert_snoc_eq, lookup_snoc_eq.
  unfold explanation, overlay, result_mapM, py_index. fold (linearized obj).
  destruct (lib_gradcam L (linearized obj) i t) as [cam|e]; [|reflexivity].
  cbn [lookup list_lookup].
  destruct (cv2_addWeighted _ _ _ _ _) as [img|e]; reflexivity.
Qed.

Lemma preprocess_and_predict_run (L : Libs) (m : loc) (obj : ModelObj)
    (buf : bytes) (img : Image) (s : State) :
  models s !! m = Some obj ->
  decodes_to L buf img ->
  distribution L obj img <> [] ->
  let p := distribution L obj img in
  preprocess_and_predict L (Some m) buf s =
    (match explanation L (linearized obj) (input_tensor L img) (argmax p) with
     | Ok heat => Ok (Some (p, heat))
     | Raise e => Raise e
     end,
     after_request s m obj (argmax p)).
Proof.
  intros Hm [Hbuf Hdec] Hp. cbv zeta.
  remember (distribution L obj img) as p eqn:Ep.
  unfold preprocess_and_predict, cv2_imdecode, cv2_cvtColor_BGR2RGB,
    cv2_resize, model_predict.
  destruct buf as [|b buf]; [congruence|].
  run_step. rewrite Hdec. run_step. rewrite Hm. run_step.
  fold (input_tensor L img). cbn [map].
  fold (distribution L obj img). rewrite <- Ep.
  unfold py_index. cbn [lookup list_lookup].
  assert (Harg : np_argmax p = Ok (argmax p))
    by (destruct p; [congruence|reflexivity]).
  rewrite Harg.
  match goal with
  | |- context [generate_gradcam L (Some m) ?b ?i ?st] =>
      rewrite (generate_gradcam_run L m obj (input_tensor L img) i st Hm)
  end.
  cbn [models pdfs log]. unfold after_request.
  rewrite <- !app_assoc. cbn [app].
  destruct (explanation _ _ _ _); reflexivity.
Qed.

Lemma predict_image_run (L : Libs) (m : loc) (obj : ModelObj)
    (file_name : string) (buf : bytes) (img : Image) (s : State) :
  models s !! m = Some obj ->
  decodes_to L buf img ->
  length (distribution L obj img) = NUM_CLASSES ->
  let p := distribution L obj img in
  exists q label,
    p !! argmax p = Some q
    /\ CLASS_NAMES !! argmax p = Some label
    /\ predict_image L (Some m) file_name buf s =
         (match explanation L (linearized obj) (input_tensor L img) (argmax p) with
          | Ok heat =>
              Ok (PredictionResponse
                    (mkPrediction file_name label
                       (format_2f (times_100 (lib_scalar_dtype L) q) ++ "%")
                       (map (times_100 Float32) p) heat))
          | Raise e => Raise e
          end,
          after_request s m obj (argmax p)).
Proof.
  intros Hm Hdec Hlen. cbv zeta.
  assert (Hne : distribution L obj img <> [])
    by (intros E; rewrite E in Hlen; discriminate).
  pose proof (preprocess_and_predict_run L m obj buf img s Hm Hdec Hne) as Hrun.
  cbv zeta in Hrun.
  remember (distribution L obj img) as p eqn:Ep.
  pose proof (argmax_lt_length p Hne) as Hlt.
  destruct (lookup_lt_is_Some_2 p (argmax p) Hlt) as [q Hq].
  assert (Hlt' : (argmax p < length CLASS_NAMES)%nat)
    by (rewrite Hlen in Hlt; exact Hlt).
  destruct (lookup_lt_is_Some_2 CLASS_NAMES (argmax p) Hlt') as [label Hlabel].
  exists q, label. split; [exact Hq|]. split; [exact Hlabel|].
  unfold predict_image. unfold bind at 1. rewrite Hrun.
  destruct (explanation _ _ _ _) as [heat|e]; [|reflexivity].
  assert (Harg : np_argmax p = Ok (argmax p))
    by (destruct p; [congruence|reflexivity]).
  run_step. rewrite Harg. unfold py_index. rewrite Hq, Hlabel.
  reflexivity.
Qed.

Lemma gradcam_targets_after (s : State) (m : loc) (obj : ModelObj) (i : nat) :
  gradcam_targets (log (after_request s m obj i)) =
  gradcam_targets (log s) ++ [i].
Proof.
  unfold after_request, gradcam_targets. cbn [log].
  rewrite flat_map_app. reflexivity.
Qed.

Lemma distribution_nonempty (L : Libs) (obj : ModelObj) (img : Image) :
  length (distribution L obj img) = NUM_CLASSES -> distribution L obj img <> [].
Proof. intros Hlen E. rewrite E in Hlen. discriminate. Qed.

(** ** The inference pipeline *)

(** C1. When the model is loaded and the upload decodes, one index serves
    the whole request: the class handed to Grad-CAM as its target, the
    index of the diagnosis label in [CLASS_NAMES] and the index of the
    probability printed as the confidence (after its floating-point
    multiplication by 100) are all [argmax] of the network's output,
    which is a maximal entry of that output.  A response is produced
    whenever the explanation is. *)
Theorem predicted_index_is_argmax (L : Libs) (m : loc) (obj : ModelObj)
    (file_name : string) (buf : bytes) (img : Image) (s : State) :
  models s !! m = Some obj ->
  decodes_to L buf img ->
  length (distribution L obj img) = NUM_CLASSES ->
  let p := distribution L obj img in
  let out := predict_image L (Some m) file_name buf s in
  first_max p (argmax p)
  /\ gradcam_targets (log (snd out)) = gradcam_targets (log s) ++ [argmax p]
  /\ (forall resp, fst out = Ok resp ->
        exists pred q,
          resp = PredictionResponse pred
          /\ CLASS_NAMES !! argmax p = Some (diagnosis pred)
          /\ p !! argmax p = Some q
          /\ confidence pred =
               (format_2f (times_100 (lib_scalar_dtype L) q) ++ "%")%string)
  /\ (forall heat,
        explanation L (linearized obj) (input_tensor L img) (argmax p) = Ok heat ->
        exists pred, fst out = Ok (PredictionResponse pred)).
Proof.
  intros Hm Hdec Hlen p out.
  destruct (predict_image_run L m obj file_name buf img s Hm Hdec Hlen)
    as (q & label & Hq & Hlabel & Hrun).
  fold p in Hq, Hlabel, Hrun. subst out. rewrite Hrun. cbn [fst snd].
  split; [apply argmax_first_max, distribution_nonempty, Hlen|].
  split; [apply gradcam_targets_after|].
  split.
  - intros resp Hresp.
    destruct (explanation _ _ _ _) as [heat|e]; [|discriminate].
    injection Hresp as <-. eexists _, q. cbn. auto.
  - intros heat Hheat. rewrite Hheat. eauto.
Qed.

Lemma predicted_index_is_argmax_witness :
  let L := Fixture.libs in
  let p := distribution L Fixture.loaded_model Fixture.pixel_image in
  let out := predict_image L (Some 0%nat) "scan.jpg" Fixture.pixel_upload
               Fixture.loaded_state in
  first_max p (argmax p)
  /\ gradcam_targets (log (snd out)) =
       gradcam_targets (log Fixture.loaded_state) ++ [argmax p]
  /\ (forall resp, fst out = Ok resp ->
        exists pred q,
          resp = PredictionResponse pred
          /\ CLASS_NAMES !! argmax p = Some (diagnosis pred)
          /\ p !! argmax p = Some q
          /\ confidence pred =
               (format_2f (times_100 (lib_scalar_dtype L) q) ++ "%")%string)
  /\ (forall heat,
        explanation L (linearized Fixture.loaded_model)
          (input_tensor L Fixture.pixel_image) (argmax p) = Ok heat ->
        exists pred, fst out = Ok (PredictionResponse pred)).
Proof.
  apply (predicted_index_is_argmax Fixture.libs 0%nat Fixture.loaded_model
           "scan.jpg" Fixture.pixel_upload Fixture.pixel_image
           Fixture.loaded_state).
  - reflexivity.
  - split; [discriminate | reflexivity].
  - reflexivity.
Defined.

(** C9. With the model loaded and the upload decoded, [argmax] of the
    five-entry output is below 5, so [CLASS_NAMES[predicted_index]] is in
    range, and the diagnosis of every response is one of the five fixed
    labels. *)
Theorem diagnosis_index_in_bounds (L : Libs) (m : loc) (obj : ModelObj)
    (file_name : string) (buf : bytes) (img : Image) (s : State) :
  models s !! m = Some obj ->
  decodes_to L buf img ->
  length (distribution L obj img) = NUM_CLASSES ->
  let p := distribution L obj img in
  let out := predict_image L (Some m) file_name buf s in
  (argmax p < 5)%nat
  /\ (exists label, py_index CLASS_NAMES (argmax p) = Ok label)
  /\ (forall pred, fst out = Ok (PredictionResponse pred) ->
        In (diagnosis pred)
           ["No DR"; "Mild"; "Moderate"; "Severe"; "Proliferative DR"])
  /\ (forall heat,
        explanation L (linearized obj) (input_tensor L img) (argmax p) = Ok heat ->
        exists pred, fst out = Ok (PredictionResponse pred)).
Proof.
  intros Hm Hdec Hlen p out.
  destruct (predict_image_run L m obj file_name buf img s Hm Hdec Hlen)
    as (q & label & Hq & Hlabel & Hrun).
  fold p in Hq, Hlabel, Hrun. subst out. rewrite Hrun. cbn [fst snd].
  split; [apply lookup_lt_Some in Hlabel; exact Hlabel|].
  split; [exists label; unfold py_index; now rewrite Hlabel|].
  split.
  - intros pred Hpred.
    destruct (explanation _ _ _ _) as [heat|e]; [|discriminate].
    injection Hpred as <-. cbn [diagnosis].
    apply list_elem_of_In, list_elem_of_lookup. eauto.
  - intros heat Hheat. rewrite Hheat. eauto.
Qed.

Lemma diagnosis_index_in_bounds_witness :
  let L := Fixture.libs in
  let p := distribution L Fixture.loaded_model Fixture.pixel_image in
  let out := predict_image L (Some 0%nat) "scan.jpg" Fixture.pixel_upload
               Fixture.loaded_state in
  (argmax p < 5)%nat
  /\ (exists label, py_index CLASS_NAMES (argmax p) = Ok label)
  /\ (forall pred, fst out = Ok (PredictionResponse pred) ->
        In (diagnosis pred)
           ["No DR"; "Mild"; "Moderate"; "Severe"; "Proliferative DR"])
  /\ (forall heat,
        explanation L (linearized Fixture.loaded_model)
          (input_tensor L Fixture.pixel_image) (argmax p) = Ok heat ->
        exists pred, fst out = Ok (PredictionResponse pred)).
Proof.
  apply (diagnosis_index_in_bounds Fixture.libs 0%nat Fixture.loaded_model
           "scan.jpg" Fixture.pixel_upload Fixture.pixel_image
           Fixture.loaded_state).
  - reflexivity.
  - split; [discriminate | reflexivity].
  - reflexivity.
Defined.

(** C10. When several classes share the maximal probability, the index
    the request uses is the smallest of them: no index holding a maximal
    entry lies below it.  The Grad-CAM target (first [np.argmax]) and the
    index of the label and of the confidence (second [np.argmax]) are
    that same index, and whenever the explanation is computed the
    response is produced with the label and the confidence of that
    index. *)
Theorem ties_resolve_to_first_index (L : Libs) (m : loc) (obj : ModelObj)
    (file_name : string) (buf : bytes) (img : Image) (s : State) :
  models s !! m = Some obj ->
  decodes_to L buf img ->
  length (distribution L obj img) = NUM_CLASSES ->
  let p := distribution L obj img in
  let out := predict_image L (Some m) file_name buf s in
  exists i q,
    p !! i = Some q
    /\ (forall j x, p !! j = Some x -> (x <= q)%Q)
    /\ (forall j x, p !! j = Some x -> (x == q)%Q -> (i <= j)%nat)
    /\ gradcam_targets (log (snd out)) = gradcam_targets (log s) ++ [i]
    /\ (forall pred, fst out = Ok (PredictionResponse pred) ->
          CLASS_NAMES !! i = Some (diagnosis pred)
          /\ confidence pred =
               (format_2f (times_100 (lib_scalar_dtype L) q) ++ "%")%string)
    /\ (forall heat,
          explanation L (linearized obj) (input_tensor L img) i = Ok heat ->
          exists pred,
            fst out = Ok (PredictionResponse pred)
            /\ CLASS_NAMES !! i = Some (diagnosis pred)
            /\ confidence pred =
                 (format_2f (times_100 (lib_scalar_dtype L) q) ++ "%")%string
            /\ heatmap_image pred = heat).
Proof.
  intros Hm Hdec Hlen p out.
  destruct (predict_image_run L m obj file_name buf img s Hm Hdec Hlen)
    as (q & label & Hq & Hlabel & Hrun).
  fold p in Hq, Hlabel, Hrun. subst out. rewrite Hrun. cbn [fst snd].
  destruct (argmax_first_max p (distribution_nonempty L obj img Hlen))
    as (q' & Hq' & Hle & Hlt).
  rewrite Hq in Hq'. injection Hq' as <-.
  exists (argmax p), q.
  split; [exact Hq|]. split; [exact Hle|]. split.
  - intros j x Hj Hx.
    destruct (le_lt_dec (argmax p) j) as [H|H]; [exact H|exfalso].
    specialize (Hlt j x H Hj). rewrite Hx in Hlt.
    exact (Qlt_irrefl _ Hlt).
  - split; [apply gradcam_targets_after|]. split.
    + intros pred Hpred.
      destruct (explanation _ _ _ _) as [heat|e]; [|discriminate].
      injection Hpred as <-. cbn. auto.
    + intros heat Hheat. rewrite Hheat.
      eexists. split; [reflexivity|]. cbn. auto.
Qed.

Lemma ties_resolve_to_first_index_witness :
  let L := Fixture.libs in
  let p := distribution L Fixture.tied_model Fixture.pixel_image in
  let out := predict_image L (Some 0%nat) "scan.jpg" Fixture.pixel_upload
               Fixture.tied_state in
  exists i q,
    p !! i = Some q
    /\ (forall j x, p !! j = Some x -> (x <= q)%Q)
    /\ (forall j x, p !! j = Some x -> (x == q)%Q -> (i <= j)%nat)
    /\ gradcam_targets (log (snd out)) =
         gradcam_targets (log Fixture.tied_state) ++ [i]
    /\ (forall pred, fst out = Ok (PredictionResponse pred) ->
          CLASS_NAMES !! i = Some (diagnosis pred)
          /\ confidence pred =
               (format_2f (times_100 (lib_scalar_dtype L) q) ++ "%")%string)
    /\ (forall heat,
          explanation L (linearized Fixture.tied_model)
            (input_tensor L Fixture.pixel_image) i = Ok heat ->
          exists pred,
            fst out = Ok (PredictionResponse pred)
            /\ CLASS_NAMES !! i = Some (diagnosis pred)
            /\ confidence pred =
                 (format_2f (times_100 (lib_scalar_dtype L) q) ++ "%")%string
            /\ heatmap_image pred = heat).
Proof.
  apply (ties_resolve_to_first_index Fixture.libs 0%nat Fixture.tied_model
           "scan.jpg" Fixture.pixel_upload Fixture.pixel_image
           Fixture.tied_state).
  - reflexivity.
  - split; [discriminate | reflexivity].
  - reflexivity.
Defined.

(** On the tied network classes 1 and 2 both score 6/15; the request
    targets class 1 and answers with its label. *)
Example tied_request_picks_mild :
  let out := predict_image Fixture.libs (Some 0%nat) "scan.jpg"
               Fixture.pixel_upload Fixture.tied_state in
  distribution Fixture.libs Fixture.tied_model Fixture.pixel_image
    = [2 # 15; 6 # 15; 6 # 15; 1 # 15; 0 # 15]%Q
  /\ gradcam_targets (log (snd out)) = [1%nat]
  /\ (forall pred, fst out = Ok (PredictionResponse pred) ->
        diagnosis pred = "Mild" /\ confidence pred = "40.00%").
Proof.
  intros out.
  assert (Hp : distribution Fixture.libs Fixture.tied_model Fixture.pixel_image
               = [2 # 15; 6 # 15; 6 # 15; 1 # 15; 0 # 15]%Q)
    by reflexivity.
  split; [exact Hp|].
  assert (Hlen : length (distribution Fixture.libs Fixture.tied_model
                            Fixture.pixel_image) = NUM_CLASSES)
    by (rewrite Hp; reflexivity).
  destruct (predict_image_run Fixture.libs 0%nat Fixture.tied_model "scan.jpg"
              Fixture.pixel_upload Fixture.pixel_image Fixture.tied_state
              eq_refl (conj (fun E => nil_cons (eq_sym E)) eq_refl) Hlen)
    as (q & label & Hq & Hlabel & Hrun).
  rewrite Hp in Hq, Hlabel, Hrun.
  change (argmax [2 # 15; 6 # 15; 6 # 15; 1 # 15; 0 # 15]%Q) with 1%nat in *.
  injection Hq as <-. injection Hlabel as <-.
  subst out. rewrite Hrun. cbn [fst snd]. split; [reflexivity|].
  intros pred Hpred.
  destruct (explanation _ _ _ _) as [heat|e]; [|discriminate].
    injection Hpred as <-. split; reflexivity.
Qed.

(** C3. When reading the weights fails at start-up the failure is printed
    once, the global [model] is [None], and from then on the endpoint answers every upload with the
    error body; nothing is raised and the state is left as it was. *)
Theorem absent_model_reports_unavailable (L : Libs) (init : Weights)
    (e : exn) (s0 : State) :
  fst (startup init (Raise e) s0) = Ok None
  /\ log (snd (startup init (Raise e) s0))
       = log s0 ++ [EvPrint ("Error loading model: " ++ str_exn e)]
  /\ forall (file_name : string) (buf : bytes) (s : State),
       predict_image L None file_name buf s =
       (Ok (ErrorResponse "Model not loaded or prediction failed"), s).
Proof.
  split; [|split].
  - unfold startup, build_model, load_weights. run_step. reflexivity.
  - unfold startup, build_model, load_weights. run_step. reflexivity.
  - intros file_name buf s. reflexivity.
Qed.

(** C2, at the code.  With the model loaded, an upload OpenCV cannot
    decode makes the endpoint raise [cv2.error]: [imdecode] yields no
    image (or rejects an empty buffer), [cvtColor] fails on it, and
    nothing between there and the framework catches the exception. *)
Theorem undecodable_upload_raises (L : Libs) (m : loc) (obj : ModelObj)
    (file_name : string) (buf : bytes) (s : State) :
  models s !! m = Some obj ->
  lib_imdecode L buf = None ->
  exists msg, fst (predict_image L (Some m) file_name buf s) = Raise (CvError msg).
Proof.
  intros Hm Hdec.
  unfold predict_image, preprocess_and_predict, cv2_imdecode,
    cv2_cvtColor_BGR2RGB.
  destruct buf as [|b buf]; run_step; [eauto|].
  rewrite Hdec. run_step. eauto.
Qed.

Lemma undecodable_upload_raises_witness :
  exists msg,
    fst (predict_image Fixture.libs (Some 0%nat) "notes.txt"
           Fixture.text_upload Fixture.loaded_state) = Raise (CvError msg).
Proof.
  apply (undecodable_upload_raises Fixture.libs 0%nat Fixture.loaded_model);
    reflexivity.
Defined.

(** C4, as the code has it.  With the model absent the guard at the top of
    [preprocess_and_predict] returns before anything is decoded: the
    state, and with it the log of library calls, is untouched, and the
    endpoint answers with the error body whether or not the upload is an
    image. *)
Theorem absent_model_skips_decoding (L : Libs) (file_name : string)
    (buf : bytes) (s : State) :
  preprocess_and_predict L None buf s = (Ok None, s)
  /\ snd (predict_image L None file_name buf s) = s
  /\ (forall e, fst (predict_image L None file_name buf s) <> Raise e).
Proof.
  split; [reflexivity|]. split; [reflexivity|].
  intros e. cbn. discriminate.
Qed.

(** C4 as stated fails: with the model absent, text sent as an upload is
    answered with the error body, no decoding step is performed and no
    decode failure is raised. *)
Lemma absent_model_malformed_upload_counterexample :
  let out := predict_image Fixture.libs None "notes.txt" Fixture.text_upload
               Fixture.empty_state in
  lib_imdecode Fixture.libs Fixture.text_upload = None
  /\ fst out = Ok (ErrorResponse "Model not loaded or prediction failed")
  /\ ~ In EvImdecode (log (snd out))
  /\ ~ (exists msg, fst out = Raise (CvError msg)).
Proof.
  cbn. split; [reflexivity|]. split; [reflexivity|].
  split; [tauto|]. intros [msg H]. discriminate.
Qed.

(** C2 as stated fails: with the model loaded, text sent as an upload
    ends the request in an exception, not in an error body. *)
Lemma undecodable_upload_counterexample :
  let out := predict_image Fixture.libs (Some 0%nat) "notes.txt"
               Fixture.text_upload Fixture.loaded_state in
  lib_imdecode Fixture.libs Fixture.text_upload = None
  /\ fst out = Raise (CvError
       "(-215:Assertion failed) !_src.empty() in function 'cvtColor'")
  /\ ~ (exists resp, fst out = Ok resp).
Proof.
  vm_compute. split; [reflexivity|]. split; [reflexivity|].
  intros [resp H]. discriminate.
Qed.

(** ** The shared classifier is never written *)

Lemma generate_gradcam_models (L : Libs) (m : loc) (obj : ModelObj)
    (batch : list Tensor) (i : nat) (s : State) :
  models s !! m = Some obj ->
  let out := generate_gradcam L (Some m) batch i s in
  models (snd out) = models s ++ [linearized obj]
  /\ log (snd out) = log s ++ [EvGradcam (length (models s)) i].
Proof.
  intros Hm.
  unfold generate_gradcam, Gradcam_init, Gradcam_call, ReplaceToLinear.
  run_step. rewrite Hm. run_step.
  rewrite lookup_snoc_eq. run_step.
  rewrite insert_snoc_eq, lookup_snoc_eq. fold (linearized obj).
  destruct (result_mapM _ batch) as [cams|e]; [|split; reflexivity].
  destruct (py_index cams 0) as [cam|e]; [|split; reflexivity].
  destruct (py_index batch 0) as [t|e]; [|split; reflexivity].
  destruct (cv2_addWeighted _ _ _ _ _) as [img|e]; split; reflexivity.
Qed.

Lemma preprocess_and_predict_models (L : Libs) (model : option loc)
    (buf : bytes) (s : State) :
  exists fresh, models (snd (preprocess_and_predict L model buf s))
                = models s ++ fresh.
Proof.
  unfold preprocess_and_predict.
  destruct model as [m|]; [|exists []; cbn; now rewrite app_nil_r].
  unfold cv2_imdecode, cv2_cvtColor_BGR2RGB, cv2_resize, model_predict.
  destruct buf as [|b buf]; run_step;
    [exists []; cbn; now rewrite app_nil_r|].
  destruct (lib_imdecode L (b :: buf)) as [img|]; run_step;
    [|exists []; cbn; now rewrite app_nil_r].
  destruct (models s !! m) as [obj|] eqn:Hm; run_step;
    [|exists []; cbn; now rewrite app_nil_r].
  cbn [map]. unfold py_index at 1. cbn [lookup list_lookup]. run_step.
  destruct (np_argmax _) as [i|e]; run_step;
    [|exists []; cbn; now rewrite app_nil_r].
  match goal with
  | |- context [generate_gradcam L (Some m) ?b i ?st] =>
      destruct (generate_gradcam_models L m obj b i st Hm) as [Hmod _];
      destruct (generate_gradcam L (Some m) b i st) as [[heat|e] s']
  end; cbn [snd models] in *; exists [linearized obj]; exact Hmod.
Qed.

(** C8. The gradient step of an explanation runs on a fresh copy of the
    classifier whose last activation is linear: the copy is appended to
    the store, the Grad-CAM call is made on it and not on the shared
    model, and every object already in the store -- the shared
    classifier among them -- keeps its weights and its softmax.  The
    same holds for a whole request, whatever the upload. *)
Theorem gradcam_leaves_classifier_untouched (L : Libs) (m : loc)
    (obj : ModelObj) (batch : list Tensor) (i : nat) (s : State) :
  models s !! m = Some obj ->
  let out := generate_gradcam L (Some m) batch i s in
  models (snd out) = models s ++ [linearized obj]
  /\ activation (linearized obj) = Linear
  /\ weights (linearized obj) = weights obj
  /\ log (snd out) = log s ++ [EvGradcam (length (models s)) i]
  /\ length (models s) <> m
  /\ models (snd out) !! m = Some obj
  /\ (forall l o, models s !! l = Some o -> models (snd out) !! l = Some o)
  /\ (forall file_name buf l o,
        models s !! l = Some o ->
        models (snd (predict_image L (Some m) file_name buf s)) !! l = Some o).
Proof.
  intros Hm out.
  destruct (generate_gradcam_models L m obj batch i s Hm) as [Hmod Hlog].
  fold out in Hmod, Hlog.
  split; [exact Hmod|]. split; [reflexivity|]. split; [reflexivity|].
  split; [exact Hlog|].
  split; [apply lookup_lt_Some in Hm; lia|].
  rewrite Hmod.
  split; [now apply lookup_app_l_Some|].
  split; [intros l o Hl; now apply lookup_app_l_Some|].
  intros file_name buf l o Hl.
  destruct (preprocess_and_predict_models L (Some m) buf s) as [fresh Hfresh].
  unfold predict_image, bind.
  destruct (preprocess_and_predict L (Some m) buf s) as [[[[p heat]|]|e] s'];
    cbn [snd] in Hfresh.
  - unfold lift.
    destruct (np_argmax p) as [k|e]; cbn [snd];
      [|rewrite Hfresh; now apply lookup_app_l_Some].
    destruct (py_index p k) as [q|e]; cbn [snd];
      [|rewrite Hfresh; now apply lookup_app_l_Some].
    destruct (py_index CLASS_NAMES k) as [label|e]; cbn [snd ret];
      rewrite Hfresh; now apply lookup_app_l_Some.
  - cbn [snd ret]. rewrite Hfresh. now apply lookup_app_l_Some.
  - cbn [snd]. rewrite Hfresh. now apply lookup_app_l_Some.
Qed.

Lemma gradcam_leaves_classifier_untouched_witness :
  let s := Fixture.loaded_state in
  let obj := Fixture.loaded_model in
  let out := generate_gradcam Fixture.libs (Some 0%nat)
               [input_tensor Fixture.libs Fixture.pixel_image] 1 s in
  models (snd out) = models s ++ [linearized obj]
  /\ activation (linearized obj) = Linear
  /\ weights (linearized obj) = weights obj
  /\ log (snd out) = log s ++ [EvGradcam (length (models s)) 1]
  /\ length (models s) <> 0%nat
  /\ models (snd out) !! 0%nat = Some obj
  /\ (forall l o, models s !! l = Some o -> models (snd out) !! l = Some o)
  /\ (forall file_name buf l o,
        models s !! l = Some o ->
        models (snd (predict_image Fixture.libs (Some 0%nat) file_name buf s))
          !! l = Some o).
Proof.
  apply (gradcam_leaves_classifier_untouched Fixture.libs 0%nat
           Fixture.loaded_model).
  reflexivity.
Defined.

(** Cloning is what protects the classifier: constructed with
    [clone=False], the visualiser would have linearised the shared model
    itself. *)
Remark Gradcam_without_clone_rewrites_model (m : loc) (obj : ModelObj)
    (s : State) :
  models s !! m = Some obj ->
  models (snd (Gradcam_init (Some m) ReplaceToLinear false s)) !! m
    = Some (linearized obj).
Proof.
  intros Hm. unfold Gradcam_init, ReplaceToLinear.
  run_step. rewrite Hm. run_step. cbn [snd models].
  apply list_lookup_insert_eq. now apply lookup_lt_Some in Hm.
Qed.

(** ** The explanation image *)

Lemma round_half_even_near (q : Q) :
  (inject_Z (round_half_even q) - q <= 1 # 2)%Q
  /\ (q - inject_Z (round_half_even q) <= 1 # 2)%Q.
Proof.
  unfold round_half_even.
  pose proof (Qfloor_le q) as Hlo.
  pose proof (Qlt_floor q) as Hhi.
  rewrite inject_Z_plus in Hhi. change (inject_Z 1) with 1%Q in Hhi.
  set (f := Qfloor q) in *.
  assert (Hcases :
    forall z, z = f \/ z = (f + 1)%Z ->
      (z = f -> (q - inject_Z f <= 1 # 2)%Q) ->
      (z = (f + 1)%Z -> (1 # 2 <= q - inject_Z f)%Q) ->
      (inject_Z z - q <= 1 # 2)%Q /\ (q - inject_Z z <= 1 # 2)%Q).
  { intros z [->| ->] H1 H2.
    - specialize (H1 eq_refl). split; lra.
    - specialize (H2 eq_refl). rewrite inject_Z_plus.
      change (inject_Z 1) with 1%Q. split; lra. }
  destruct (q - inject_Z f ?= 1 # 2)%Q eqn:E.
  - apply Qeq_alt in E.
    destruct (Z.even f);
      [apply (Hcases f (or_introl eq_refl))
      |apply (Hcases (f + 1)%Z (or_intror eq_refl))];
      intros _; lra.
  - apply Qlt_alt in E. apply (Hcases f (or_introl eq_refl)).
    + intros _. lra.
    + intros H. exfalso. lia.
  - apply Qgt_alt in E. apply (Hcases (f + 1)%Z (or_intror eq_refl)).
    + intros H. exfalso. lia.
    + intros _. lra.
Qed.

Lemma blend_is_40_60 (h o : Z) :
  is_byte h -> is_byte o -> blend_40_60 (blend (2 # 5) (3 # 5) 0 h o) h o.
Proof.
  unfold is_byte, blend_40_60, blend. intros Hh Ho.
  set (q := (inject_Z h * (2 # 5) + inject_Z o * (3 # 5) + 0)%Q).
  destruct (round_half_even_near q) as [H1 H2].
  set (r := round_half_even q) in *.
  assert (Hr : (Z.abs (5 * r - (2 * h + 3 * o)) <= 2)%Z).
  { assert (Hup : (inject_Z (10 * r) <= inject_Z (2 * (2 * h + 3 * o) + 5))%Q).
    { rewrite !inject_Z_plus, !inject_Z_mult, !inject_Z_plus, !inject_Z_mult.
      change (inject_Z 10) with 10%Q. change (inject_Z 2) with 2%Q.
      change (inject_Z 3) with 3%Q. change (inject_Z 5) with 5%Q.
      subst q. lra. }
    assert (Hdn : (inject_Z (2 * (2 * h + 3 * o)) <= inject_Z (10 * r + 5))%Q).
    { rewrite !inject_Z_plus, !inject_Z_mult, !inject_Z_plus, !inject_Z_mult.
      change (inject_Z 10) with 10%Q. change (inject_Z 2) with 2%Q.
      change (inject_Z 3) with 3%Q. change (inject_Z 5) with 5%Q.
      subst q. lra. }
    rewrite <- Zle_Qle in Hup, Hdn. lia. }
  assert (Hb : (0 <= r <= 255)%Z) by lia.
  unfold saturate_uint8, is_byte. split; [lia|].
  replace (Z.max 0 (Z.min 255 r)) with r by lia. exact Hr.
Qed.

Lemma astype_uint8_scaled (v : Q) :
  unit_interval v ->
  astype_uint8 (v * 255) = Qfloor (v * 255) /\ is_byte (Qfloor (v * 255)).
Proof.
  unfold unit_interval, astype_uint8, is_byte. intros [H0 H1].
  assert (Hlo : (0 <= v * 255)%Q) by lra.
  assert (Hhi : (v * 255 <= 255)%Q) by lra.
  pose proof (Qfloor_resp_le _ _ Hlo) as Hf0.
  pose proof (Qfloor_resp_le _ _ Hhi) as Hf1.
  change (Qfloor 0) with 0%Z in Hf0. change (Qfloor 255) with 255%Z in Hf1.
  apply Qle_bool_iff in Hlo. rewrite Hlo.
  split; [apply Z.mod_small; lia|lia].
Qed.

(** The two bounds of [blend_40_60] leave room for one byte only. *)
Lemma blend_40_60_unique (v v' h o : Z) :
  blend_40_60 v h o -> blend_40_60 v' h o -> v = v'.
Proof. unfold blend_40_60. intros [_ H] [_ H']. lia. Qed.

Lemma lookup_map {A B} (f : A -> B) (l : list A) (i : nat) :
  map f l !! i = option_map f (l !! i).
Proof.
  revert i. induction l as [|a l IH]; intros [|i]; cbn; auto.
Qed.

Lemma lookup_combine {A B} (a : list A) (b : list B) (i : nat) (x : A) (y : B) :
  a !! i = Some x -> b !! i = Some y -> combine a b !! i = Some (x, y).
Proof.
  revert b i. induction a as [|a0 a IH]; intros [|b0 b] [|i] Ha Hb;
    cbn in *; try discriminate.
  - congruence.
  - now apply IH.
Qed.

Lemma at2_map {A B} (f : A -> B) (a : list (list A)) (y x : nat) :
  at2 (map (map f) a) y x = option_map f (at2 a y x).
Proof.
  unfold at2. rewrite lookup_map.
  destruct (a !! y) as [row|]; cbn; [apply lookup_map|reflexivity].
Qed.

Lemma same_shape_map {A A' B B'} (f : A -> A') (g : B -> B')
    (a : list (list A)) (b : list (list B)) :
  same_shape (map (map f) a) (map (map g) b) = same_shape a b.
Proof.
  unfold same_shape. rewrite !length_map. f_equal.
  revert b. induction a as [|r a IH]; intros [|r' b]; cbn; auto.
  rewrite !length_map. now rewrite IH.
Qed.

Lemma same_shape_map_l {A A' B} (f : A -> A')
    (a : list (list A)) (b : list (list B)) :
  same_shape (map (map f) a) b = same_shape a b.
Proof.
  unfold same_shape. rewrite !length_map. f_equal.
  revert b. induction a as [|r a IH]; intros [|r' b]; cbn; auto.
  rewrite !length_map. now rewrite IH.
Qed.

Lemma same_shape_refl {A} (a : list (list A)) : same_shape a a = true.
Proof.
  unfold same_shape. rewrite Nat.eqb_refl. cbn [andb].
  induction a as [|r a IH]; cbn; [reflexivity|].
  now rewrite Nat.eqb_refl.
Qed.

Lemma at2_zip {A B C} (f : A -> B -> C) (a : list (list A))
    (b : list (list B)) (y x : nat) (p1 : A) (p2 : B) :
  at2 a y x = Some p1 ->
  at2 b y x = Some p2 ->
  at2 (map (fun '(r1, r2) => map (fun '(p, q) => f p q) (combine r1 r2))
           (combine a b)) y x
    = Some (f p1 p2).
Proof.
  unfold at2.
  destruct (a !! y) as [r1|] eqn:E1; [|intros; discriminate].
  destruct (b !! y) as [r2|] eqn:E2; [|intros; discriminate].
  intros H1 H2.
  rewrite lookup_map, (lookup_combine _ _ _ _ _ E1 E2). cbn [option_map].
  rewrite lookup_map, (lookup_combine _ _ _ _ _ H1 H2). reflexivity.
Qed.

Lemma cv2_addWeighted_at (src1 src2 img : Image) (alpha beta gamma : Q)
    (y x : nat) (p1 p2 : Pixel) :
  cv2_addWeighted src1 alpha src2 beta gamma = Ok img ->
  at2 src1 y x = Some p1 ->
  at2 src2 y x = Some p2 ->
  at2 img y x = Some (zip_pixel (blend alpha beta gamma) p1 p2).
Proof.
  unfold cv2_addWeighted. destruct (same_shape src1 src2); [|discriminate].
  intros E H1 H2. injection E as <-.
  exact (at2_zip (zip_pixel (blend alpha beta gamma)) src1 src2 y x p1 p2 H1 H2).
Qed.

(** C7. The explanation image is computed pixel by pixel: the saliency
    value is scaled to a grey level between 0 and 255, the jet table turns
    the grey level into a three-channel heat pixel, the input pixel is
    scaled back to three bytes, and every channel of the result is the
    byte nearest to 40% of the heat channel plus 60% of the original
    channel.  The endpoint's heat map is that image, JPEG-encoded and
    base64-encoded. *)
Theorem explanation_image_is_blend (L : Libs) (m : loc) (obj : ModelObj)
    (t : Tensor) (i : nat) (s : State) (cam : Cam) :
  models s !! m = Some obj ->
  lib_gradcam L (linearized obj) i t = Ok cam ->
  same_shape cam t = true ->
  (forall g, is_byte g -> pixel_bytes (lib_jet L g)) ->
  (forall y x c, at2 cam y x = Some c -> unit_interval c) ->
  (forall y x px, at2 t y x = Some px -> fpixel_unit px) ->
  exists img,
    overlay L cam t = Ok img
    /\ fst (generate_gradcam L (Some m) [t] i s)
         = Ok (lib_b64encode L (lib_imencode_jpg L img))
    /\ forall y x c px,
         at2 cam y x = Some c ->
         at2 t y x = Some px ->
         let gray := Qfloor (c * 255) in
         let orig := map_pixel (fun v => Qfloor (v * 255)) px in
         is_byte gray
         /\ pixel_bytes orig
         /\ exists out,
              at2 img y x = Some out
              /\ pixel_rel blend_40_60 out (lib_jet L gray) orig.
Proof.
  intros Hm Hcam Hshape Hjet Hc Ht.
  assert (Hov : exists img, overlay L cam t = Ok img).
  { unfold overlay, cv2_addWeighted, cv2_applyColorMap_JET, cam_to_uint8,
      tensor_to_uint8.
    rewrite same_shape_map, same_shape_map_l, Hshape. eauto. }
  destruct Hov as [img Hov]. exists img.
  split; [exact Hov|]. split.
  { rewrite (generate_gradcam_run L m obj t i s Hm). cbn [fst].
    unfold explanation. now rewrite Hcam, Hov. }
  intros y x c px Hcyx Htyx gray orig.
  destruct (astype_uint8_scaled c (Hc y x c Hcyx)) as [Egray Hgray].
  fold gray in Egray, Hgray.
  pose proof (Ht y x px Htyx) as Hpx.
  destruct px as [[a b] d]. destruct Hpx as (Ha & Hb & Hd).
  destruct (astype_uint8_scaled a Ha) as [Ea Hab].
  destruct (astype_uint8_scaled b Hb) as [Eb Hbb].
  destruct (astype_uint8_scaled d Hd) as [Ed Hdb].
  split; [exact Hgray|]. split; [subst orig; cbn; auto|].
  eexists. split.
  - eapply cv2_addWeighted_at; [exact Hov| |].
    + unfold cv2_applyColorMap_JET, cam_to_uint8.
      rewrite !at2_map, Hcyx. cbn [option_map]. reflexivity.
    + unfold tensor_to_uint8. rewrite at2_map, Htyx. reflexivity.
  - rewrite Egray. cbn [map_pixel]. rewrite Ea, Eb, Ed.
    pose proof (Hjet gray Hgray) as Hheat.
    destruct (lib_jet L gray) as [[h1 h2] h3]. destruct Hheat as (H1 & H2 & H3).
    subst orig. cbn [map_pixel zip_pixel pixel_rel].
    repeat split; try (apply blend_is_40_60; assumption);
      apply blend_is_40_60; assumption.
Qed.

Lemma explanation_image_is_blend_witness :
  let L := Fixture.libs in
  let t := Fixture.small_tensor in
  let cam := [[0; 1 # 4]]%Q in
  exists img,
    overlay L cam t = Ok img
    /\ fst (generate_gradcam L (Some 0%nat) [t] 1 Fixture.loaded_state)
         = Ok (lib_b64encode L (lib_imencode_jpg L img))
    /\ forall y x c px,
         at2 cam y x = Some c ->
         at2 t y x = Some px ->
         let gray := Qfloor (c * 255) in
         let orig := map_pixel (fun v => Qfloor (v * 255)) px in
         is_byte gray
         /\ pixel_bytes orig
         /\ exists out,
              at2 img y x = Some out
              /\ pixel_rel blend_40_60 out (lib_jet L gray) orig.
Proof.
  apply (explanation_image_is_blend Fixture.libs 0%nat Fixture.loaded_model
           Fixture.small_tensor 1 Fixture.loaded_state).
  - reflexivity.
  - reflexivity.
  - reflexivity.
  - intros g [Hlo Hhi]. cbn [lib_jet Fixture.libs]. unfold Fixture.jet.
    destruct (g <? 128)%Z eqn:E; [apply Z.ltb_lt in E | apply Z.ltb_ge in E];
      unfold pixel_bytes, is_byte; lia.
  - intros [|y] x c; [|destruct y; discriminate].
    destruct x as [|[|x]]; cbn; intros H; try discriminate;
      injection H as <-; split; discriminate.
  - intros [|y] x px; [|destruct y; discriminate].
    destruct x as [|[|x]]; cbn; intros H; try discriminate;
      injection H as <-; repeat split; discriminate.
Defined.

(** The two pixels of the small tensor, blended: saliency 0 maps to the
    heat pixel (255, 0, 0), saliency 1/4 to grey level 63 and the heat
    pixel (192, 126, 63). *)
Example overlay_small_tensor :
  overlay Fixture.libs [[0; 1 # 4]]%Q Fixture.small_tensor
    = Ok [[(102, 76, 153); (115, 88, 140)]]%Z.
Proof. reflexivity. Qed.

(** ** Floating-point rounding *)

Lemma pow2_pos (e : Z) : (0 < pow2 e)%Q.
Proof. apply Qpower_0_lt. reflexivity. Qed.

Lemma pow2_le (a b : Z) : (a <= b)%Z -> (pow2 a <= pow2 b)%Q.
Proof. intros H. apply Qpower_le_compat_l; [exact H|discriminate]. Qed.

Lemma pow2_inv (k : Z) : (0 <= k)%Z -> (pow2 (- k) == / inject_Z (2 ^ k))%Q.
Proof.
  intros Hk. unfold pow2. rewrite Qpower_opp, Zpower_Qpower by exact Hk.
  reflexivity.
Qed.

Lemma binade_le_100 (x : Q) : (0 < x)%Q -> (x <= 100)%Q -> (binade x <= 7)%Z.
Proof.
  intros Hpos Hle. unfold binade.
  assert (He0 : (Z.log2 (Z.abs (Qnum x)) - Z.log2 (Zpos (Qden x)) <= 7)%Z).
  { destruct x as [n d]. unfold Qlt, Qle in Hpos, Hle.
    cbn [Qnum Qden] in *.
    rewrite Z.abs_eq by lia.
    assert (Hn : (n <= Zpos d * 2 ^ 7)%Z)
      by (change (2 ^ 7)%Z with 128%Z; lia).
    apply Z.log2_le_mono in Hn.
    rewrite Z.log2_mul_pow2 in Hn by lia. lia. }
  destruct (Qle_bool _ _); lia.
Qed.

(** Rounding to an integer stays within the integers around. *)
Lemma round_half_even_between (q : Q) (a b : Z) :
  (inject_Z a <= q)%Q -> (q <= inject_Z b)%Q ->
  (a <= round_half_even q <= b)%Z.
Proof.
  intros Ha Hb. destruct (round_half_even_near q) as [Hup Hdn].
  set (r := round_half_even q) in *.
  assert (H1 : (inject_Z (a - 1) < inject_Z r)%Q).
  { unfold Z.sub. rewrite inject_Z_plus, inject_Z_opp.
    change (inject_Z 1) with 1%Q. lra. }
  assert (H2 : (inject_Z r < inject_Z (b + 1))%Q).
  { rewrite inject_Z_plus. change (inject_Z 1) with 1%Q. lra. }
  rewrite <- Zlt_Qlt in H1, H2. lia.
Qed.

(** A number between 0 and 100 is rounded, in a format of at least 24
    bits, to a number between 0 and 100 that is within [2^-17] of it. *)
Lemma round_binary_100 (prec emin : Z) (x : Q) :
  (24 <= prec)%Z -> (emin <= -16)%Z ->
  (0 <= x)%Q -> (x <= 100)%Q ->
  (0 <= round_binary prec emin x)%Q
  /\ (round_binary prec emin x <= 100)%Q
  /\ (Qabs (round_binary prec emin x - x) <= 1 # 131072)%Q.
Proof.
  intros Hprec Hemin H0 H100. unfold round_binary.
  destruct (Qeq_bool x 0) eqn:Ez.
  { apply Qeq_bool_eq in Ez. split; [apply Qle_refl|]. split; [discriminate|].
    assert (E : (0 - x == 0)%Q) by (rewrite Ez; reflexivity).
    rewrite E. discriminate. }
  apply Qeq_bool_neq in Ez.
  assert (Hpos : (0 < x)%Q).
  { apply Qle_lteq in H0. destruct H0 as [H|H]; [exact H|].
    exfalso. apply Ez. now symmetry. }
  pose proof (binade_le_100 x Hpos H100) as Hb.
  set (e := Z.max (binade x - prec + 1) emin).
  assert (He : (e <= -16)%Z) by (subst e; lia).
  set (k := (- e)%Z).
  assert (Hk : (16 <= k)%Z) by (subst k; lia).
  assert (Es : (pow2 e == / inject_Z (2 ^ k))%Q).
  { replace e with (- k)%Z by (subst k; lia). apply pow2_inv. lia. }
  pose proof (pow2_pos e) as Hs.
  assert (Hs16 : (pow2 e <= 1 # 65536)%Q).
  { change (1 # 65536) with (pow2 (-16)). now apply pow2_le. }
  set (s := pow2 e) in *.
  assert (Hsne : ~ s == 0) by (intros E; rewrite E in Hs; discriminate).
  assert (Hv0 : (inject_Z 0 <= x / s)%Q).
  { change (inject_Z 0) with 0%Q. apply Qle_shift_div_l; [exact Hs|]. lra. }
  assert (EM : (100 / s == inject_Z (100 * 2 ^ k))%Q).
  { rewrite Es, inject_Z_mult. change (inject_Z 100) with 100%Q.
    field. intros E.
    assert (Hp : (0 < inject_Z (2 ^ k))%Q).
    { change 0%Q with (inject_Z 0). rewrite <- Zlt_Qlt.
      apply Z.pow_pos_nonneg; lia. }
    rewrite E in Hp. discriminate. }
  assert (HvM : (x / s <= inject_Z (100 * 2 ^ k))%Q).
  { rewrite <- EM. apply Qmult_le_compat_r; [exact H100|].
    apply Qinv_le_0_compat. now apply Qlt_le_weak. }
  destruct (round_half_even_between _ _ _ Hv0 HvM) as [Hr0 HrM].
  destruct (round_half_even_near (x / s)) as [Hup Hdn].
  set (r := round_half_even (x / s)) in *.
  assert (Hrq0 : (0 <= inject_Z r)%Q)
    by (change 0%Q with (inject_Z 0); now rewrite <- Zle_Qle).
  assert (HrqM : (inject_Z r <= 100 / s)%Q)
    by (rewrite EM; now rewrite <- Zle_Qle).
  split; [|split].
  - apply Qmult_le_0_compat; [exact Hrq0|now apply Qlt_le_weak].
  - apply Qle_trans with (100 / s * s)%Q.
    + apply Qmult_le_compat_r; [exact HrqM|now apply Qlt_le_weak].
    + assert (E : (100 / s * s == 100)%Q) by (field; exact Hsne).
      rewrite E. apply Qle_refl.
  - assert (E : (inject_Z r * s - x == (inject_Z r - x / s) * s)%Q)
      by (field; exact Hsne).
    rewrite E, Qabs_Qmult.
    apply Qle_trans with ((1 # 2) * (1 # 65536))%Q; [|discriminate].
    assert (Hd : (Qabs (inject_Z r - x / s) <= 1 # 2)%Q)
      by (apply Qabs_Qle_condition; split; lra).
    rewrite (Qabs_pos s) by now apply Qlt_le_weak.
    apply Qle_trans with ((1 # 2) * s)%Q.
    + apply Qmult_le_compat_r; [exact Hd|now apply Qlt_le_weak].
    + apply Qmult_le_l; [reflexivity|exact Hs16].
Qed.

Lemma times_100_unit (d : Dtype) (p : Q) :
  unit_interval p ->
  (0 <= times_100 d p <= 100)%Q
  /\ (Qabs (times_100 d p - p * 100) <= 1 # 131072)%Q.
Proof.
  unfold unit_interval. intros [H0 H1].
  assert (Hx0 : (0 <= p * 100)%Q) by lra.
  assert (Hx1 : (p * 100 <= 100)%Q) by lra.
  unfold times_100, as_dtype.
  destruct d;
    match goal with
    | |- context [round_binary ?prec ?emin _] =>
        destruct (round_binary_100 prec emin (p * 100)) as (A & B & C);
        [lia|lia|exact Hx0|exact Hx1|auto]
    end.
Qed.

(** Two products in which the rounding to float32 shows. *)
Example times_100_float32_rounds_down :
  (times_100 Float32 (713189 # 1048576) == 4457431 # 65536)%Q
  /\ ((713189 # 1048576) * 100 == 17829725 # 262144)%Q
  /\ format_2f (times_100 Float32 (713189 # 1048576)) = "68.01"
  /\ format_2f (times_100 Float64 (713189 # 1048576)) = "68.02".
Proof. repeat split. Qed.

Example times_100_float32_merges_neighbours :
  (times_100 Float32 (13421775 # 33554432) == 5242881 # 131072)%Q
  /\ (times_100 Float32 (838861 # 2097152) == 5242881 # 131072)%Q.
Proof. split; reflexivity. Qed.

(** ** Printing with two decimals *)

Lemma round_half_even_comp (q q' : Q) :
  (q == q')%Q -> round_half_even q = round_half_even q'.
Proof.
  intros E. unfold round_half_even.
  assert (Ef : Qfloor q = Qfloor q') by now apply Qfloor_comp.
  rewrite Ef.
  assert (Ec : (q - inject_Z (Qfloor q') ?= 1 # 2)%Q
               = (q' - inject_Z (Qfloor q') ?= 1 # 2)%Q)
    by (apply Qcompare_comp; [now rewrite E|reflexivity]).
  now rewrite Ec.
Qed.

Lemma round_half_even_nearest (x : Q) : nearest_even x (round_half_even x).
Proof.
  destruct (round_half_even_near x) as [Hup Hdn].
  split; [apply Qabs_Qle_condition; split; lra|].
  revert Hup Hdn. unfold round_half_even.
  pose proof (Qfloor_le x) as Hlo.
  pose proof (Qlt_floor x) as Hhi.
  rewrite inject_Z_plus in Hhi. change (inject_Z 1) with 1%Q in Hhi.
  set (f := Qfloor x) in *.
  destruct (x - inject_Z f ?= 1 # 2)%Q eqn:E.
  - destruct (Z.even f) eqn:Ev; intros _ _ _; [exact Ev|].
    rewrite Z.even_add, Ev. reflexivity.
  - apply Qlt_alt in E. intros _ _ Htie. exfalso.
    rewrite Qabs_neg in Htie by lra. lra.
  - apply Qgt_alt in E. intros _ _ Htie. exfalso.
    rewrite inject_Z_plus in Htie. change (inject_Z 1) with 1%Q in Htie.
    rewrite Qabs_pos in Htie by lra. lra.
Qed.

(** The nearest integer with ties to even is unique, so [nearest_even]
    fixes the number that is printed. *)
Lemma nearest_even_unique (x : Q) (n n' : Z) :
  nearest_even x n -> nearest_even x n' -> n = n'.
Proof.
  intros [Hn Tn] [Hn' Tn'].
  apply Qabs_Qle_condition in Hn, Hn'.
  assert (Hclose : (n' - 1 <= n <= n' + 1)%Z).
  { assert (H1 : (inject_Z n <= inject_Z (n' + 1))%Q)
      by (rewrite inject_Z_plus; change (inject_Z 1) with 1%Q; lra).
    assert (H2 : (inject_Z n' <= inject_Z (n + 1))%Q)
      by (rewrite inject_Z_plus; change (inject_Z 1) with 1%Q; lra).
    rewrite <- Zle_Qle in H1, H2. lia. }
  destruct (Z.eq_dec n n') as [E|NE]; [exact E|exfalso].
  assert (Hcase : n = (n' + 1)%Z \/ n' = (n + 1)%Z) by lia.
  destruct Hcase as [->| ->].
  - rewrite inject_Z_plus in Hn, Tn. change (inject_Z 1) with 1%Q in Hn, Tn.
    assert (T1 : Z.even (n' + 1) = true)
      by (apply Tn; rewrite Qabs_pos by lra; lra).
    assert (T2 : Z.even n' = true)
      by (apply Tn'; rewrite Qabs_neg by lra; lra).
    rewrite Z.even_add, T2 in T1. discriminate.
  - rewrite inject_Z_plus in Hn', Tn'. change (inject_Z 1) with 1%Q in Hn', Tn'.
    assert (T1 : Z.even (n + 1) = true)
      by (apply Tn'; rewrite Qabs_pos by lra; lra).
    assert (T2 : Z.even n = true)
      by (apply Tn; rewrite Qabs_neg by lra; lra).
    rewrite Z.even_add, T2 in T1. discriminate.
Qed.

Lemma two_digits_chars (k : nat) :
  (k < 100)%nat ->
  two_digits (Z.of_nat k)
  = String (digit_char (Z.of_nat k / 10))
      (String (digit_char (Z.of_nat k mod 10)) "").
Proof.
  intros Hk.
  do 100 (destruct k as [|k]; [reflexivity|]).
  lia.
Qed.

(** What [format_2f] prints for a number that is not negative. *)
Lemma format_2f_hundredths (x : Q) :
  (0 <= x)%Q -> format_2f x = hundredths (round_half_even (x * 100)).
Proof.
  intros Hx.
  assert (Hn : (0 <= round_half_even (x * 100))%Z).
  { destruct (round_half_even_near (x * 100)) as [Hup Hdn].
    assert (H1 : (inject_Z (-1) < inject_Z (round_half_even (x * 100)))%Q)
      by (change (inject_Z (-1)) with (-1)%Q; lra).
    rewrite <- Zlt_Qlt in H1. lia. }
  assert (Hsign : Qltb x 0 = false) by now apply Qltb_ge.
  assert (En : round_half_even (Qabs x * 100) = round_half_even (x * 100))
    by (apply round_half_even_comp; now rewrite Qabs_pos).
  unfold format_2f, hundredths. rewrite Hsign, En.
  set (n := round_half_even (x * 100)) in *.
  transitivity (Z_to_string (n / 100) ++ "." ++ two_digits (n mod 100))%string;
    [reflexivity|].
  assert (Hip : Z_to_string (n / 100)
                = NilZero.string_of_uint (N.to_uint (Z.to_N (n / 100)))).
  { assert (H : (0 <= n / 100)%Z) by (apply Z.div_pos; lia).
    destruct (n / 100)%Z; [reflexivity|reflexivity|lia]. }
  rewrite Hip. f_equal. f_equal.
  assert (Hm : (0 <= n mod 100 < 100)%Z) by (apply Z.mod_pos_bound; lia).
  rewrite <- (Z2Nat.id (n mod 100)) at 1 by lia.
  rewrite two_digits_chars by lia.
  rewrite Z2Nat.id by lia.
  assert (Emod : ((n mod 100) mod 10 = n mod 10)%Z).
  { rewrite (Z.mod_eq n 100) by lia.
    replace (n - 100 * (n / 100))%Z with (n + (- (10 * (n / 100))) * 10)%Z
      by lia.
    apply Z_mod_plus_full. }
  rewrite Emod.
  reflexivity.
Qed.

Example hundredths_example : hundredths 6801 = "68.01".
Proof. reflexivity. Qed.

(** ** Rounding is monotone *)

Lemma pow2_add (a b : Z) : (pow2 (a + b) == pow2 a * pow2 b)%Q.
Proof. unfold pow2. apply Qpower_plus. discriminate. Qed.

Lemma pow2_int (k : Z) : (0 <= k)%Z -> (pow2 k == inject_Z (2 ^ k))%Q.
Proof. intros Hk. unfold pow2. now rewrite Zpower_Qpower. Qed.

Lemma pow2_lt (a b : Z) : (a < b)%Z -> (pow2 a < pow2 b)%Q.
Proof. intros H. apply Qpower_lt_compat_l; [exact H|reflexivity]. Qed.

Lemma pow2_lt_inv (a b : Z) : (pow2 a < pow2 b)%Q -> (a < b)%Z.
Proof. intros H. apply (Qpower_lt_compat_l_inv 2); [exact H|reflexivity]. Qed.

Lemma pow2_quotient (a b : Z) :
  (0 <= a)%Z -> (0 <= b)%Z ->
  (pow2 (a - b) == inject_Z (2 ^ a) / inject_Z (2 ^ b))%Q.
Proof.
  intros Ha Hb. unfold Z.sub. rewrite pow2_add, pow2_inv, pow2_int by lia.
  reflexivity.
Qed.

Lemma Qdiv_le_cross (a b c d : Q) :
  (0 < b)%Q -> (0 < d)%Q -> (a * d <= c * b)%Q -> (a / b <= c / d)%Q.
Proof.
  intros Hb Hd H.
  apply Qle_shift_div_l; [exact Hd|].
  assert (E : (a / b * d == a * d / b)%Q)
    by (field; intros Z; rewrite Z in Hb; discriminate).
  rewrite E. now apply Qle_shift_div_r.
Qed.

Lemma Qdiv_lt_cross (a b c d : Q) :
  (0 < b)%Q -> (0 < d)%Q -> (a * d < c * b)%Q -> (a / b < c / d)%Q.
Proof.
  intros Hb Hd H.
  apply Qlt_shift_div_l; [exact Hd|].
  assert (E : (a / b * d == a * d / b)%Q)
    by (field; intros Z; rewrite Z in Hb; discriminate).
  rewrite E. now apply Qlt_shift_div_r.
Qed.

(** [binade] does what its comment says. *)
Lemma binade_spec (x : Q) :
  (0 < x)%Q -> (pow2 (binade x) <= x)%Q /\ (x < pow2 (binade x + 1))%Q.
Proof.
  intros Hpos. unfold binade.
  assert (Habs : (Qabs x == x)%Q) by (apply Qabs_pos; now apply Qlt_le_weak).
  destruct x as [n d]. cbn [Qnum Qden] in *.
  assert (Hn : (0 < n)%Z) by (unfold Qlt in Hpos; cbn in Hpos; lia).
  rewrite Z.abs_eq by lia.
  pose proof (Z.log2_spec n Hn) as [Hn1 Hn2].
  pose proof (Z.log2_spec (Zpos d) (Pos2Z.is_pos d)) as [Hd1 Hd2].
  pose proof (Z.log2_nonneg n) as Hln.
  pose proof (Z.log2_nonneg (Zpos d)) as Hld.
  set (ln := Z.log2 n) in *. set (ld := Z.log2 (Zpos d)) in *.
  assert (Hx : (n # d == inject_Z n / inject_Z (Zpos d))%Q)
    by (rewrite Qmake_Qdiv; reflexivity).
  assert (Hdq : (0 < inject_Z (Zpos d))%Q) by reflexivity.
  assert (P : forall k, (0 <= k)%Z -> (0 < inject_Z (2 ^ k))%Q).
  { intros k Hk. change 0%Q with (inject_Z 0). rewrite <- Zlt_Qlt.
    apply Z.pow_pos_nonneg; lia. }
  assert (Pz : forall k, (0 <= k)%Z -> (0 < 2 ^ k)%Z)
    by (intros k Hk; apply Z.pow_pos_nonneg; lia).
  assert (Hlow : (pow2 (ln - ld - 1) <= n # d)%Q).
  { replace (ln - ld - 1)%Z with (ln - (ld + 1))%Z by lia.
    rewrite pow2_quotient, Hx by lia.
    apply Qdiv_le_cross; [apply P; lia|exact Hdq|].
    rewrite <- !inject_Z_mult, <- Zle_Qle.
    replace (Z.succ ld) with (ld + 1)%Z in Hd2 by lia.
    apply Z.le_trans with (n * Zpos d)%Z.
    - apply Z.mul_le_mono_nonneg_r; lia.
    - apply Z.mul_le_mono_nonneg_l; lia. }
  assert (Hupp : (n # d < pow2 (ln - ld + 1))%Q).
  { replace (ln - ld + 1)%Z with ((ln + 1) - ld)%Z by lia.
    rewrite pow2_quotient, Hx by lia.
    apply Qdiv_lt_cross; [exact Hdq|apply P; lia|].
    rewrite <- !inject_Z_mult, <- Zlt_Qlt.
    replace (Z.succ ln) with (ln + 1)%Z in Hn2 by lia.
    pose proof (Pz ld Hld) as Hpd. pose proof (Pz (ln + 1)%Z ltac:(lia)) as Hpn.
    apply Z.le_lt_trans with (n * Zpos d)%Z.
    - apply Z.mul_le_mono_nonneg_l; lia.
    - apply Z.mul_lt_mono_pos_r; lia. }
  destruct (Qle_bool (pow2 (ln - ld)) (Qabs (n # d))) eqn:E.
  - apply Qle_bool_iff in E. rewrite Habs in E. split; [exact E|exact Hupp].
  - split; [exact Hlow|].
    replace (ln - ld - 1 + 1)%Z with (ln - ld)%Z by lia.
    apply Qnot_le_lt. intros H. rewrite <- Habs in H.
    apply Qle_bool_iff in H. congruence.
Qed.

Lemma binade_mono (x y : Q) :
  (0 < x)%Q -> (x <= y)%Q -> (binade x <= binade y)%Z.
Proof.
  intros Hx Hxy.
  destruct (binade_spec x Hx) as [Hx1 _].
  destruct (binade_spec y (Qlt_le_trans _ _ _ Hx Hxy)) as [_ Hy2].
  assert (H : (pow2 (binade x) < pow2 (binade y + 1))%Q) by lra.
  apply pow2_lt_inv in H. lia.
Qed.

Lemma round_half_even_mono (a b : Q) :
  (a <= b)%Q -> (round_half_even a <= round_half_even b)%Z.
Proof.
  intros Hab.
  destruct (round_half_even_near a) as [Ha1 Ha2].
  destruct (round_half_even_near b) as [Hb1 Hb2].
  destruct (Z_le_gt_dec (round_half_even a) (round_half_even b)) as [H|H];
    [exact H|exfalso].
  assert (Hge : (inject_Z (round_half_even b + 1) <= inject_Z (round_half_even a))%Q)
    by (rewrite <- Zle_Qle; lia).
  rewrite inject_Z_plus in Hge. change (inject_Z 1) with 1%Q in Hge.
  assert (E : (a == b)%Q) by lra.
  apply round_half_even_comp in E. lia.
Qed.

Lemma pow2_ratio (a b : Z) : (pow2 a / pow2 b == pow2 (a - b))%Q.
Proof.
  unfold Z.sub. rewrite pow2_add. unfold pow2 at 4. rewrite Qpower_opp.
  reflexivity.
Qed.

(** A number that is at most [2^t] is rounded, on a grid of spacing
    [2^u] with [u <= t], to at most [2^t]; likewise from below. *)
Lemma round_on_grid_le (x : Q) (u t : Z) :
  (x <= pow2 t)%Q -> (u <= t)%Z ->
  (inject_Z (round_half_even (x / pow2 u)) * pow2 u <= pow2 t)%Q.
Proof.
  intros Hx Hut. pose proof (pow2_pos u) as Hu.
  assert (Hq : (x / pow2 u <= inject_Z (2 ^ (t - u)))%Q).
  { rewrite <- pow2_int, <- pow2_ratio by lia.
    apply Qmult_le_compat_r; [exact Hx|].
    apply Qinv_le_0_compat. now apply Qlt_le_weak. }
  destruct (round_half_even_near (x / pow2 u)) as [Hup _].
  set (r := round_half_even (x / pow2 u)) in *.
  assert (Hr : (r <= 2 ^ (t - u))%Z).
  { assert (H : (inject_Z r < inject_Z (2 ^ (t - u) + 1))%Q)
      by (rewrite inject_Z_plus; change (inject_Z 1) with 1%Q; lra).
    rewrite <- Zlt_Qlt in H. lia. }
  apply Qle_trans with (inject_Z (2 ^ (t - u)) * pow2 u)%Q.
  - apply Qmult_le_compat_r; [now rewrite <- Zle_Qle|now apply Qlt_le_weak].
  - rewrite <- pow2_int, <- pow2_add by lia.
    replace (t - u + u)%Z with t by lia. apply Qle_refl.
Qed.

Lemma round_on_grid_ge (x : Q) (u t : Z) :
  (pow2 t <= x)%Q -> (u <= t)%Z ->
  (pow2 t <= inject_Z (round_half_even (x / pow2 u)) * pow2 u)%Q.
Proof.
  intros Hx Hut. pose proof (pow2_pos u) as Hu.
  assert (Hq : (inject_Z (2 ^ (t - u)) <= x / pow2 u)%Q).
  { rewrite <- pow2_int, <- pow2_ratio by lia.
    apply Qmult_le_compat_r; [exact Hx|].
    apply Qinv_le_0_compat. now apply Qlt_le_weak. }
  destruct (round_half_even_near (x / pow2 u)) as [_ Hdn].
  set (r := round_half_even (x / pow2 u)) in *.
  assert (Hr : (2 ^ (t - u) <= r)%Z).
  { assert (H : (inject_Z (2 ^ (t - u)) < inject_Z (r + 1))%Q)
      by (rewrite inject_Z_plus; change (inject_Z 1) with 1%Q; lra).
    rewrite <- Zlt_Qlt in H. lia. }
  apply Qle_trans with (inject_Z (2 ^ (t - u)) * pow2 u)%Q.
  - rewrite <- pow2_int, <- pow2_add by lia.
    replace (t - u + u)%Z with t by lia. apply Qle_refl.
  - apply Qmult_le_compat_r; [now rewrite <- Zle_Qle|now apply Qlt_le_weak].
Qed.

Lemma round_binary_nonneg (prec emin : Z) (x : Q) :
  (0 <= x)%Q -> (0 <= round_binary prec emin x)%Q.
Proof.
  intros Hx. unfold round_binary.
  destruct (Qeq_bool x 0); [apply Qle_refl|].
  set (u := Z.max _ _). pose proof (pow2_pos u) as Hu.
  apply Qmult_le_0_compat; [|now apply Qlt_le_weak].
  change 0%Q with (inject_Z 0). rewrite <- Zle_Qle.
  change 0%Z with (round_half_even 0) at 1.
  apply round_half_even_mono.
  apply Qle_shift_div_l; [exact Hu|]. lra.
Qed.

(** Rounding to a binary format keeps the order of numbers that are not
    negative. *)
Lemma round_binary_mono (prec emin : Z) (x y : Q) :
  (1 <= prec)%Z -> (0 <= x)%Q -> (x <= y)%Q ->
  (round_binary prec emin x <= round_binary prec emin y)%Q.
Proof.
  intros Hprec Hx Hxy.
  destruct (Qeq_bool x 0) eqn:Ex.
  { unfold round_binary at 1. rewrite Ex.
    apply round_binary_nonneg. lra. }
  apply Qeq_bool_neq in Ex.
  assert (Hxpos : (0 < x)%Q).
  { apply Qle_lteq in Hx. destruct Hx as [H|H]; [exact H|].
    exfalso. apply Ex. now symmetry. }
  assert (Hypos : (0 < y)%Q) by lra.
  assert (Ey : Qeq_bool y 0 = false).
  { destruct (Qeq_bool y 0) eqn:E; [|reflexivity].
    apply Qeq_bool_eq in E. rewrite E in Hypos. discriminate. }
  unfold round_binary.
  apply Qeq_bool_neq in Ey.
  destruct (Qeq_bool x 0) eqn:Ex'; [apply Qeq_bool_eq in Ex'; contradiction|].
  destruct (Qeq_bool y 0) eqn:Ey'; [apply Qeq_bool_eq in Ey'; contradiction|].
  pose proof (binade_mono x y Hxpos Hxy) as Hb.
  destruct (binade_spec x Hxpos) as [_ Hx2].
  destruct (binade_spec y Hypos) as [Hy1 _].
  set (bx := binade x) in *. set (bz := binade y) in *.
  set (ux := Z.max (bx - prec + 1) emin).
  set (uy := Z.max (bz - prec + 1) emin).
  destruct (Z.eq_dec ux uy) as [E|NE].
  - rewrite <- E. pose proof (pow2_pos ux) as Hu.
    apply Qmult_le_compat_r; [|now apply Qlt_le_weak].
    rewrite <- Zle_Qle. apply round_half_even_mono.
    apply Qmult_le_compat_r; [exact Hxy|].
    apply Qinv_le_0_compat. now apply Qlt_le_weak.
  - assert (Hlt : (ux < uy)%Z) by (subst ux uy; lia).
    assert (Huy : uy = (bz - prec + 1)%Z) by (subst ux uy; lia).
    set (t := Z.max (bx + 1) ux).
    assert (Ht : (t <= bz)%Z) by (subst t ux uy; lia).
    apply Qle_trans with (pow2 t).
    + apply round_on_grid_le; [|subst t; lia].
      apply Qle_trans with (pow2 (bx + 1)); [now apply Qlt_le_weak|].
      apply pow2_le. subst t. lia.
    + apply Qle_trans with (pow2 bz); [now apply pow2_le|].
      apply round_on_grid_ge; [exact Hy1|lia].
Qed.

Lemma times_100_mono (d : Dtype) (x y : Q) :
  (0 <= x)%Q -> (x <= y)%Q -> (times_100 d x <= times_100 d y)%Q.
Proof.
  intros Hx Hxy. unfold times_100, as_dtype.
  destruct d; apply round_binary_mono; try lia; lra.
Qed.

(** ** The packaged result *)

Lemma Qsum_scale (l : list Q) (c : Q) :
  (Qsum (map (fun x => x * c) l) == Qsum l * c)%Q.
Proof.
  induction l as [|x l IH]; simpl.
  - ring.
  - rewrite IH. ring.
Qed.

Example format_2f_rounds_down : format_2f (87344 # 1000) = "87.34".
Proof. reflexivity. Qed.

Example format_2f_rounds_up : format_2f (87346 # 1000) = "87.35".
Proof. reflexivity. Qed.

Example format_2f_tie_to_even : format_2f (87345 # 1000) = "87.34".
Proof. reflexivity. Qed.

Example format_2f_pads : format_2f (5 # 100) = "0.05".
Proof. reflexivity. Qed.

Example format_2f_full : format_2f 100 = "100.00".
Proof. reflexivity. Qed.

Lemma Qsum_times_100 (d : Dtype) (p : list Q) :
  (forall x, In x p -> (0 <= x <= 1)%Q) ->
  Forall2 (fun x y => (Qabs (y - 100 * x) <= 1 # 131072)%Q)
          p (map (times_100 d) p)
  /\ (forall y, In y (map (times_100 d) p) -> (0 <= y <= 100)%Q)
  /\ (Qabs (Qsum (map (times_100 d) p) - 100 * Qsum p)
      <= inject_Z (Z.of_nat (length p)) * (1 # 131072))%Q.
Proof.
  induction p as [|x p IH]; intros Hunit.
  - split; [constructor|]. split; [intros y []|]. discriminate.
  - destruct IH as (IH1 & IH2 & IH3);
      [intros y Hy; apply Hunit; now right|].
    destruct (times_100_unit d x (Hunit x (or_introl eq_refl))) as [Hr Hn].
    assert (Hn' : (Qabs (times_100 d x - 100 * x) <= 1 # 131072)%Q).
    { assert (E : (times_100 d x - 100 * x == times_100 d x - x * 100)%Q)
        by ring.
      now rewrite E. }
    split; [constructor; assumption|]. split.
    + intros y [<-|Hy]; [exact Hr|now apply IH2].
    + cbn [map Qsum fold_right length].
      fold (Qsum (map (times_100 d) p)). fold (Qsum p).
      rewrite Nat2Z.inj_succ. unfold Z.succ. rewrite inject_Z_plus.
      change (inject_Z 1) with 1%Q.
      assert (E : (times_100 d x + Qsum (map (times_100 d) p)
                   - 100 * (x + Qsum p)
                   == (times_100 d x - 100 * x)
                      + (Qsum (map (times_100 d) p) - 100 * Qsum p))%Q)
        by ring.
      rewrite E.
      eapply Qle_trans; [apply Qabs_triangle|]. lra.
Qed.

(** C5. A successful inference answers with the upload's file name, the
    class name at the argmax index, a confidence and the probability
    vector.  The confidence is the numeral, with exactly two digits after
    the point and a percent sign, of the number of hundredths nearest
    (ties to even) to the floating-point product of the maximal
    probability and 100, itself within [2^-17] of the exact product.
    The vector holds the float32 products of the network's output and
    100: five entries, each between 0 and 100 and within [2^-17] of the
    exact product, whose sum is within 0.5 of 100 -- given that the
    softmax output has five entries between 0 and 1 that sum to 1 within
    0.004. *)
Theorem packaged_result (L : Libs) (m : loc) (obj : ModelObj)
    (file_name : string) (buf : bytes) (img : Image) (s : State)
    (heat : string) :
  models s !! m = Some obj ->
  decodes_to L buf img ->
  let p := distribution L obj img in
  length p = NUM_CLASSES ->
  (forall x, In x p -> (0 <= x <= 1)%Q) ->
  (Qabs (Qsum p - 1) <= 1 # 250)%Q ->
  explanation L (linearized obj) (input_tensor L img) (argmax p) = Ok heat ->
  exists pred q c n,
    fst (predict_image L (Some m) file_name buf s) = Ok (PredictionResponse pred)
    /\ filename pred = file_name
    /\ p !! argmax p = Some q
    /\ (forall x, In x p -> (x <= q)%Q)
    /\ CLASS_NAMES !! argmax p = Some (diagnosis pred)
    /\ c = times_100 (lib_scalar_dtype L) q
    /\ (Qabs (c - 100 * q) <= 1 # 131072)%Q
    /\ nearest_even (c * 100) n
    /\ (0 <= n <= 10000)%Z
    /\ confidence pred = (hundredths n ++ "%")%string
    /\ probabilities pred = map (times_100 Float32) p
    /\ length (probabilities pred) = 5%nat
    /\ Forall2 (fun x y => (Qabs (y - 100 * x) <= 1 # 131072)%Q)
         p (probabilities pred)
    /\ (forall y, In y (probabilities pred) -> (0 <= y <= 100)%Q)
    /\ (Qabs (Qsum (probabilities pred) - 100) <= 1 # 2)%Q
    /\ heatmap_image pred = heat.
Proof.
  intros Hm Hdec p Hlen Hrange Hsum Hheat.
  destruct (predict_image_run L m obj file_name buf img s Hm Hdec Hlen)
    as (q & label & Hq & Hlabel & Hrun).
  fold p in Hq, Hlabel, Hrun. rewrite Hheat in Hrun.
  destruct (argmax_first_max p (distribution_nonempty L obj img Hlen))
    as (q' & Hq' & Hle & _).
  rewrite Hq in Hq'. injection Hq' as <-.
  assert (Hqin : In q p)
    by (apply list_elem_of_In, list_elem_of_lookup; eauto).
  destruct (times_100_unit (lib_scalar_dtype L) q (Hrange q Hqin))
    as [[Hc0 Hc100] Hcnear].
  set (c := times_100 (lib_scalar_dtype L) q) in *.
  destruct (Qsum_times_100 Float32 p Hrange) as (Hall & Hbounds & Hsums).
  exists (mkPrediction file_name label (format_2f c ++ "%")
            (map (times_100 Float32) p) heat), q, c,
         (round_half_even (c * 100)).
  rewrite Hrun. cbn [fst filename diagnosis confidence probabilities
                     heatmap_image].
  split; [reflexivity|]. split; [reflexivity|]. split; [exact Hq|]. split.
  { intros x Hx. apply list_elem_of_In, list_elem_of_lookup in Hx.
    destruct Hx as [j Hj]. exact (Hle j x Hj). }
  split; [exact Hlabel|]. split; [reflexivity|]. split.
  { assert (E : (c - 100 * q == c - q * 100)%Q) by ring. now rewrite E. }
  split; [apply round_half_even_nearest|]. split.
  { apply round_half_even_between.
    - change (inject_Z 0) with 0%Q. lra.
    - change (inject_Z 10000) with 10000%Q. lra. }
  split; [now rewrite format_2f_hundredths|].
  split; [reflexivity|]. split; [rewrite length_map; exact Hlen|].
  split; [exact Hall|]. split; [exact Hbounds|]. split; [|reflexivity].
  rewrite Hlen in Hsums. change (inject_Z (Z.of_nat NUM_CLASSES)) with 5%Q in Hsums.
  apply Qabs_Qle_condition in Hsums, Hsum.
  apply Qabs_Qle_condition. split; lra.
Qed.

Lemma packaged_result_witness :
  let L := Fixture.libs in
  let p := distribution L Fixture.loaded_model Fixture.pixel_image in
  exists pred q c n,
    fst (predict_image L (Some 0%nat) "scan.jpg" Fixture.pixel_upload
           Fixture.loaded_state)
      = Ok (PredictionResponse pred)
    /\ filename pred = "scan.jpg"
    /\ p !! argmax p = Some q
    /\ (forall x, In x p -> (x <= q)%Q)
    /\ CLASS_NAMES !! argmax p = Some (diagnosis pred)
    /\ c = times_100 (lib_scalar_dtype L) q
    /\ (Qabs (c - 100 * q) <= 1 # 131072)%Q
    /\ nearest_even (c * 100) n
    /\ (0 <= n <= 10000)%Z
    /\ confidence pred = (hundredths n ++ "%")%string
    /\ probabilities pred = map (times_100 Float32) p
    /\ length (probabilities pred) = 5%nat
    /\ Forall2 (fun x y => (Qabs (y - 100 * x) <= 1 # 131072)%Q)
         p (probabilities pred)
    /\ (forall y, In y (probabilities pred) -> (0 <= y <= 100)%Q)
    /\ (Qabs (Qsum (probabilities pred) - 100) <= 1 # 2)%Q
    /\ heatmap_image pred =
         match explanation L (linearized Fixture.loaded_model)
                 (input_tensor L Fixture.pixel_image) 1 with
         | Ok heat => heat
         | Raise _ => ""
         end.
Proof.
  assert (Hp : distribution Fixture.libs Fixture.loaded_model Fixture.pixel_image
               = [1 # 10; 6 # 10; 2 # 10; 1 # 10; 0 # 10]%Q)
    by reflexivity.
  assert (Hex : exists heat,
            explanation Fixture.libs (linearized Fixture.loaded_model)
              (input_tensor Fixture.libs Fixture.pixel_image) 1 = Ok heat).
  { unfold explanation, overlay, cv2_addWeighted, cv2_applyColorMap_JET,
      cam_to_uint8, tensor_to_uint8.
    cbn [lib_gradcam Fixture.libs]. unfold Fixture.gradcam.
    change (1 <? NUM_CLASSES)%nat with true. cbv iota.
    rewrite same_shape_map, !same_shape_map_l, same_shape_refl.
    eexists. reflexivity. }
  destruct Hex as [heat Hheat]. cbv zeta. rewrite Hheat.
  apply (packaged_result Fixture.libs 0%nat Fixture.loaded_model "scan.jpg"
           Fixture.pixel_upload Fixture.pixel_image Fixture.loaded_state heat).
  - reflexivity.
  - split; [discriminate | reflexivity].
  - rewrite Hp. reflexivity.
  - rewrite Hp. intros x Hx. cbn in Hx.
    repeat (destruct Hx as [<-|Hx]; [split; discriminate|]). destruct Hx.
  - rewrite Hp. vm_compute. discriminate.
  - rewrite Hp. exact Hheat.
Defined.

(** The response of the fixture, printed: class 1 at 60%. *)
Example packaged_result_example :
  forall pred,
    fst (predict_image Fixture.libs (Some 0%nat) "scan.jpg"
           Fixture.pixel_upload Fixture.loaded_state)
      = Ok (PredictionResponse pred) ->
    diagnosis pred = "Mild" /\ confidence pred = "60.00%"
    /\ map Qred (probabilities pred) = [10; 60; 20; 10; 0]%Q.
Proof.
  assert (Hp : distribution Fixture.libs Fixture.loaded_model Fixture.pixel_image
               = [1 # 10; 6 # 10; 2 # 10; 1 # 10; 0 # 10]%Q)
    by reflexivity.
  assert (Hlen : length (distribution Fixture.libs Fixture.loaded_model
                            Fixture.pixel_image) = NUM_CLASSES)
    by (rewrite Hp; reflexivity).
  destruct (predict_image_run Fixture.libs 0%nat Fixture.loaded_model
              "scan.jpg" Fixture.pixel_upload Fixture.pixel_image
              Fixture.loaded_state
              eq_refl (conj (fun E => nil_cons (eq_sym E)) eq_refl) Hlen)
    as (q & label & Hq & Hlabel & Hrun).
  rewrite Hp in Hq, Hlabel, Hrun.
  change (argmax [1 # 10; 6 # 10; 2 # 10; 1 # 10; 0 # 10]%Q) with 1%nat in *.
  injection Hq as <-. injection Hlabel as <-.
  rewrite Hrun. cbn [fst]. intros pred Hpred.
  destruct (explanation _ _ _ _) as [heat|e]; [|discriminate].
  injection Hpred as <-. repeat split.
Qed.

(** ** The report renderer *)

Lemma pdf_emit_run (op : PdfOp) (ms : list ModelObj) (ps : list PdfObj)
    (obj : PdfObj) (lg : list Event) :
  pdf_emit (length ps) op (mkState ms (ps ++ [obj]) lg) =
  (Ok tt, mkState ms (ps ++ [mkPdf (page obj) (content obj ++ [op])]) lg).
Proof.
  unfold pdf_emit. run_step. rewrite lookup_snoc_eq. run_step.
  now rewrite insert_snoc_eq.
Qed.

Ltac pdf_step :=
  unfold set_font, cell, ln, set_y, page_no;
  repeat first [ rewrite pdf_emit_run; cbn [page content]
               | progress run_step ].

Lemma embed_block_run (L : Libs) (title b64_string : string)
    (ms : list ModelObj) (ps : list PdfObj) (obj : PdfObj) (lg : list Event) :
  embed_block L (length ps) title b64_string (mkState ms (ps ++ [obj]) lg) =
  (Ok tt,
   mkState ms
     (ps ++ [mkPdf (page obj) (content obj ++ block_ops L title b64_string)])
     (lg ++ block_log L b64_string)).
Proof.
  destruct obj as [pg ct]. cbn [page content].
  unfold embed_block, block_ops, block_log, image, caption. run_step.
  destruct (lib_b64decode L b64_string) as [data|e]; pdf_step.
  - destruct (lib_load_image L data) as [u|e]; pdf_step.
    + rewrite <- !app_assoc, app_nil_r. reflexivity.
    + rewrite <- !app_assoc. reflexivity.
  - rewrite app_nil_r. reflexivity.
Qed.

Lemma create_pdf_report_run (L : Libs) (data : gmap string string)
    (fname diag conf original heat : string) (s : State) :
  data !! "filename" = Some fname ->
  data !! "diagnosis" = Some diag ->
  data !! "confidence" = Some conf ->
  data !! "original_image" = Some original ->
  data !! "heatmap_image" = Some heat ->
  let doc := report_head L fname diag conf
               ++ block_ops L "Original Scan" original
               ++ block_ops L "Model Focus Heatmap" heat
               ++ report_foot in
  create_pdf_report L data s =
    (Ok doc,
     mkState (models s) (pdfs s ++ [mkPdf 1 doc])
             (log s ++ block_log L original ++ block_log L heat)).
Proof.
  intros Hf Hd Hc Ho Hh. cbv zeta.
  destruct s as [ms ps lg].
  unfold create_pdf_report, PDF_new, add_page, output, header, footer,
    for_each, py_getitem.
  rewrite Hf, Hd, Hc, Ho, Hh.
  repeat first [ rewrite lookup_snoc_eq
               | rewrite insert_snoc_eq
               | rewrite embed_block_run
               | progress pdf_step
               | progress cbn [page content Nat.ltb Nat.leb Nat.eqb] ].
  unfold report_head, report_foot.
  rewrite <- !app_assoc. cbn [app Z.of_nat Pos.of_succ_nat].
  reflexivity.
Qed.

Ltac in_list := cbn [In app]; repeat first [ left; reflexivity | right ].

Ltac not_in_list H :=
  cbn [In app append] in H;
  repeat (destruct H as [H|H]; [try discriminate H|]); try contradiction H.




(** When the text is base64 but the bytes are no image, the caption is
    already drawn when [FPDF.image] fails. *)
Example report_keeps_caption_of_unreadable_image :
  let out := create_pdf_report Fixture.libs
               (Fixture.payload Fixture.garbage_text Fixture.jpeg_text)
               Fixture.empty_state in
  exists doc,
    fst out = Ok doc
    /\ In (caption "Original Scan") doc
    /\ ~ In (OpImage (list_byte_of_string "hello") 150) doc
    /\ log (snd out) =
         [EvPrint "Could not process image for PDF: Unsupported image type"].
Proof.
  eexists. split; [vm_compute; reflexivity|].
  split; [in_list|]. split; [|vm_compute; reflexivity].
  intros H. not_in_list H.
Qed.

(** * Further properties of the code *)

(** ** The response of /predict *)

(** X1. In every response the class named by the diagnosis has a largest
    entry of the [probabilities] the response itself carries: no reported
    probability exceeds the one reported for the diagnosed class.  Where
    NumPy keeps the scalar product in float32, the confidence is printed
    from that very entry.  The network's output is assumed to have five
    entries, none negative. *)
Theorem diagnosis_entry_is_largest_reported (L : Libs) (m : loc)
    (obj : ModelObj) (file_name : string) (buf : bytes) (img : Image)
    (s : State) :
  models s !! m = Some obj ->
  decodes_to L buf img ->
  let p := distribution L obj img in
  length p = NUM_CLASSES ->
  (forall x, In x p -> (0 <= x)%Q) ->
  let out := predict_image L (Some m) file_name buf s in
  (forall pred, fst out = Ok (PredictionResponse pred) ->
     exists top,
       CLASS_NAMES !! argmax p = Some (diagnosis pred)
       /\ probabilities pred !! argmax p = Some top
       /\ (forall y, In y (probabilities pred) -> (y <= top)%Q)
       /\ (lib_scalar_dtype L = Float32 ->
           confidence pred = (format_2f top ++ "%")%string))
  /\ (forall heat,
        explanation L (linearized obj) (input_tensor L img) (argmax p)
          = Ok heat ->
        exists pred, fst out = Ok (PredictionResponse pred)).
Proof.
  intros Hm Hdec p Hlen Hpos out.
  destruct (predict_image_run L m obj file_name buf img s Hm Hdec Hlen)
    as (q & label & Hq & Hlabel & Hrun).
  destruct (argmax_first_max _ (distribution_nonempty L obj img Hlen))
    as (q' & Hq' & Hle & _).
  rewrite Hq in Hq'. injection Hq' as <-.
  fold p in Hq, Hlabel, Hrun, Hle.
  subst out. rewrite Hrun. cbn [fst]. split.
  - intros pred Hpred.
    destruct (explanation _ _ _ _) as [heat|e]; [|discriminate].
    injection Hpred as <-.
    cbn [probabilities diagnosis confidence].
    exists (times_100 Float32 q).
    split; [exact Hlabel|].
    split; [rewrite lookup_map, Hq; reflexivity|].
    split.
    + intros y Hy. apply in_map_iff in Hy. destruct Hy as (x & <- & Hx).
      pose proof (Hpos x Hx) as Hx0.
      apply list_elem_of_In, list_elem_of_lookup in Hx. destruct Hx as [j Hj].
      apply times_100_mono; [exact Hx0|exact (Hle j x Hj)].
    + intros ->. reflexivity.
  - intros heat Hheat. rewrite Hheat. eauto.
Qed.

Lemma diagnosis_entry_is_largest_reported_witness :
  let L := Fixture.libs in
  let p := distribution L Fixture.loaded_model Fixture.pixel_image in
  let out := predict_image L (Some 0%nat) "scan.jpg" Fixture.pixel_upload
               Fixture.loaded_state in
  (forall pred, fst out = Ok (PredictionResponse pred) ->
     exists top,
       CLASS_NAMES !! argmax p = Some (diagnosis pred)
       /\ probabilities pred !! argmax p = Some top
       /\ (forall y, In y (probabilities pred) -> (y <= top)%Q)
       /\ (lib_scalar_dtype L = Float32 ->
           confidence pred = (format_2f top ++ "%")%string))
  /\ (forall heat,
        explanation L (linearized Fixture.loaded_model)
          (input_tensor L Fixture.pixel_image) (argmax p) = Ok heat ->
        exists pred, fst out = Ok (PredictionResponse pred)).
Proof.
  apply (diagnosis_entry_is_largest_reported Fixture.libs 0%nat
           Fixture.loaded_model "scan.jpg" Fixture.pixel_upload
           Fixture.pixel_image Fixture.loaded_state).
  - reflexivity.
  - split; [discriminate | reflexivity].
  - reflexivity.
  - intros x Hx. cbn in Hx.
    repeat (destruct Hx as [<-|Hx]; [discriminate|]). destruct Hx.
Defined.

(** The diagnosed class need not be the first largest entry of the
    reported array: the float32 product with 100 can merge two adjacent
    float32 probabilities.  Here class 2 is diagnosed, and the argmax of
    the reported percentages is class 1. *)
Example reported_argmax_can_differ :
  let p := [3355443 # 16777216; 13421775 # 33554432; 838861 # 2097152;
            0; 0]%Q in
  argmax p = 2%nat
  /\ argmax (map (times_100 Float32) p) = 1%nat
  /\ map Qred (map (times_100 Float32) p)
     = [10485759 # 524288; 5242881 # 131072; 5242881 # 131072; 0; 0]%Q.
Proof. vm_compute. repeat split. Qed.

(** ** Failures on the way *)

(** X2. A failure of the explanation step -- Grad-CAM raising, or its map
    not fitting the image -- is the outcome of the whole request: the
    exception reaches the caller although the network has already been
    run on the upload, and no response with a probability array is
    produced. *)
Theorem explanation_failure_fails_request (L : Libs) (m : loc)
    (obj : ModelObj) (file_name : string) (buf : bytes) (img : Image)
    (s : State) (e : exn) :
  models s !! m = Some obj ->
  decodes_to L buf img ->
  length (distribution L obj img) = NUM_CLASSES ->
  explanation L (linearized obj) (input_tensor L img)
    (argmax (distribution L obj img)) = Raise e ->
  let out := predict_image L (Some m) file_name buf s in
  fst out = Raise e
  /\ log (snd out) =
       log s ++ [EvImdecode; EvCvtColor; EvResize; EvPredict m;
                 EvGradcam (length (models s)) (argmax (distribution L obj img))].
Proof.
  intros Hm Hdec Hlen Hfail out.
  destruct (predict_image_run L m obj file_name buf img s Hm Hdec Hlen)
    as (q & label & _ & _ & Hrun).
  subst out. rewrite Hrun, Hfail. split; reflexivity.
Qed.

Lemma explanation_failure_fails_request_witness :
  let L := Fixture.libs_failing_gradcam in
  let out := predict_image L (Some 0%nat) "scan.jpg" Fixture.pixel_upload
               Fixture.loaded_state in
  fst out = Raise (VisError "no gradient for the penultimate layer")
  /\ log (snd out) =
       log Fixture.loaded_state
         ++ [EvImdecode; EvCvtColor; EvResize; EvPredict 0%nat;
             EvGradcam (length (models Fixture.loaded_state))
               (argmax (distribution L Fixture.loaded_model
                          Fixture.pixel_image))].
Proof.
  apply (explanation_failure_fails_request Fixture.libs_failing_gradcam 0%nat
           Fixture.loaded_model "scan.jpg" Fixture.pixel_upload
           Fixture.pixel_image Fixture.loaded_state).
  - reflexivity.
  - split; [discriminate | reflexivity].
  - reflexivity.
  - reflexivity.
Defined.

(** X3. An upload OpenCV cannot decode stops the request before the
    network is involved: only the decoding call (and, for a non-empty
    buffer, the colour conversion that fails on its result) is made, the
    image is neither resized, classified nor explained, and the store is
    left as it was. *)
Theorem undecodable_upload_stops_early (L : Libs) (m : loc)
    (file_name : string) (buf : bytes) (s : State) :
  lib_imdecode L buf = None ->
  let out := predict_image L (Some m) file_name buf s in
  models (snd out) = models s
  /\ pdfs (snd out) = pdfs s
  /\ log (snd out) =
       log s ++ match buf with
                | [] => [EvImdecode]
                | _ :: _ => [EvImdecode; EvCvtColor]
                end.
Proof.
  intros Hdec.
  unfold predict_image, preprocess_and_predict, cv2_imdecode,
    cv2_cvtColor_BGR2RGB.
  destruct buf as [|b buf]; run_step; cbn [snd models pdfs log].
  - auto.
  - rewrite Hdec. run_step. cbn [snd models pdfs log].
    rewrite <- app_assoc. auto.
Qed.

Lemma undecodable_upload_stops_early_witness :
  let out := predict_image Fixture.libs (Some 0%nat) "notes.txt"
               Fixture.text_upload Fixture.loaded_state in
  models (snd out) = models Fixture.loaded_state
  /\ pdfs (snd out) = pdfs Fixture.loaded_state
  /\ log (snd out) =
       log Fixture.loaded_state
         ++ match Fixture.text_upload with
            | [] => [EvImdecode]
            | _ :: _ => [EvImdecode; EvCvtColor]
            end.
Proof.
  apply (undecodable_upload_stops_early Fixture.libs 0%nat "notes.txt"
           Fixture.text_upload Fixture.loaded_state).
  reflexivity.
Defined.

(** ** Requests do not influence one another *)

Lemma preprocess_and_predict_result (L : Libs) (m : loc) (buf : bytes) :
  exists F : option ModelObj -> Result (option (list Q * string)),
    forall s, fst (preprocess_and_predict L (Some m) buf s) = F (models s !! m).
Proof.
  unfold preprocess_and_predict, cv2_imdecode, cv2_cvtColor_BGR2RGB,
    cv2_resize, model_predict.
  destruct buf as [|b buf].
  { exists (fun _ => Raise (CvError
       "(-215:Assertion failed) !buf.empty() in function 'imdecode_'")).
    intros s. run_step. reflexivity. }
  destruct (lib_imdecode L (b :: buf)) as [img|] eqn:Hdec.
  2: { exists (fun _ => Raise (CvError
         "(-215:Assertion failed) !_src.empty() in function 'cvtColor'")).
       intros s. run_step. reflexivity. }
  exists (fun o =>
    match o with
    | None => Raise (AttributeError "no such model object")
    | Some obj =>
        let t := normalize (lib_resize L (map (map swap_rb) img) IMG_SIZE IMG_SIZE) in
        let p := lib_forward L (weights obj) (activation obj) t in
        match np_argmax p with
        | Raise e => Raise e
        | Ok i =>
            match explanation L (linearized obj) t i with
            | Raise e => Raise e
            | Ok heat => Ok (Some (p, heat))
            end
        end
    end).
  intros s. run_step.
  destruct (models s !! m) as [obj|] eqn:Hm; run_step; [|reflexivity].
  cbn [map]. unfold py_index. cbn [lookup list_lookup]. run_step.
  destruct (np_argmax _) as [i|e]; run_step; [|reflexivity].
  match goal with
  | |- context [generate_gradcam L (Some m) ?b i ?st] =>
      rewrite (generate_gradcam_run L m obj _ i st Hm)
  end.
  destruct (explanation _ _ _ _); reflexivity.
Qed.

Lemma predict_image_result (L : Libs) (m : loc) (file_name : string)
    (buf : bytes) (s1 s2 : State) :
  models s1 !! m = models s2 !! m ->
  fst (predict_image L (Some m) file_name buf s1)
    = fst (predict_image L (Some m) file_name buf s2).
Proof.
  intros Hsame.
  destruct (preprocess_and_predict_result L m buf) as [F HF].
  pose proof (HF s1) as H1. pose proof (HF s2) as H2.
  rewrite Hsame in H1. rewrite <- H2 in H1. clear HF H2.
  unfold predict_image, bind.
  destruct (preprocess_and_predict L (Some m) buf s1) as [r1 t1].
  destruct (preprocess_and_predict L (Some m) buf s2) as [r2 t2].
  cbn [fst] in H1. subst r2.
  destruct r1 as [[[p heat]|]|e]; [|reflexivity|reflexivity].
  unfold lift, ret.
  destruct (np_argmax p) as [k|e]; [|reflexivity].
  destruct (py_index p k) as [q|e]; [|reflexivity].
  destruct (py_index CLASS_NAMES k) as [label|e]; reflexivity.
Qed.

Lemma predict_image_keeps_model (L : Libs) (m : loc) (file_name : string)
    (buf : bytes) (s : State) :
  models (snd (predict_image L (Some m) file_name buf s)) !! m = models s !! m.
Proof.
  destruct (models s !! m) as [obj|] eqn:Hm.
  - destruct (preprocess_and_predict_models L (Some m) buf s) as [fresh Hfresh].
    unfold predict_image, bind.
    destruct (preprocess_and_predict L (Some m) buf s) as [[[[p heat]|]|e] s'];
      cbn [snd] in Hfresh.
    + unfold lift, ret.
      destruct (np_argmax p) as [k|e]; cbn [snd];
        [|rewrite Hfresh; now apply lookup_app_l_Some].
      destruct (py_index p k) as [q|e]; cbn [snd];
        [|rewrite Hfresh; now apply lookup_app_l_Some].
      destruct (py_index CLASS_NAMES k) as [label|e]; cbn [snd];
        rewrite Hfresh; now apply lookup_app_l_Some.
    + cbn [snd ret]. rewrite Hfresh. now apply lookup_app_l_Some.
    + cbn [snd]. rewrite Hfresh. now apply lookup_app_l_Some.
  - unfold predict_image, preprocess_and_predict, cv2_imdecode,
      cv2_cvtColor_BGR2RGB, cv2_resize, model_predict.
    destruct buf as [|b buf]; run_step; [exact Hm|].
    destruct (lib_imdecode L (b :: buf)) as [img|]; run_step; [|exact Hm].
    rewrite Hm. run_step. exact Hm.
Qed.

(** X4. What a request answers does not depend on the requests served
    before it: after any earlier upload, decodable or not, the same
    upload gets the same result -- the same response or the same
    exception -- as it would have got first. *)
Theorem requests_are_independent (L : Libs) (model : option loc)
    (file_name file_name' : string) (buf buf' : bytes) (s : State) :
  fst (predict_image L model file_name buf
         (snd (predict_image L model file_name' buf' s)))
  = fst (predict_image L model file_name buf s).
Proof.
  destruct model as [m|]; [|reflexivity].
  apply predict_image_result, predict_image_keeps_model.
Qed.

(** ** Start-up and first request *)

Lemma startup_loaded (init w : Weights) (s : State) :
  startup init (Ok w) s =
    (Ok (Some (length (models s))),
     mkState (models s ++ [mkModel w Softmax]) (pdfs s)
       (log s ++ [EvPrint "Model structure built and weights loaded successfully."])).
Proof.
  unfold startup, build_model, load_weights. run_step.
  rewrite lookup_snoc_eq. run_step. rewrite insert_snoc_eq. reflexivity.
Qed.

(** X5. When the weight file is read at start-up, the global [model]
    refers to a new softmax network carrying the weights of the file,
    whatever values the network was built with; the objects already in
    the store are kept and the success is printed.  A request served in
    that state classifies with the file's weights: its probabilities are
    the output of the network under those weights, multiplied by 100 in
    float32. *)
Theorem loaded_weights_drive_prediction (L : Libs) (init w : Weights)
    (s : State) (file_name : string) (buf : bytes) (img : Image)
    (heat : string) :
  decodes_to L buf img ->
  let boot := startup init (Ok w) s in
  let p := lib_forward L w Softmax (input_tensor L img) in
  length p = NUM_CLASSES ->
  explanation L (mkModel w Linear) (input_tensor L img) (argmax p) = Ok heat ->
  fst boot = Ok (Some (length (models s)))
  /\ models (snd boot) = models s ++ [mkModel w Softmax]
  /\ log (snd boot) =
       log s ++ [EvPrint "Model structure built and weights loaded successfully."]
  /\ exists pred,
       fst (predict_image L (Some (length (models s))) file_name buf (snd boot))
         = Ok (PredictionResponse pred)
       /\ probabilities pred = map (times_100 Float32) p
       /\ CLASS_NAMES !! argmax p = Some (diagnosis pred)
       /\ heatmap_image pred = heat.
Proof.
  intros Hdec boot p Hlen Hheat. subst boot.
  rewrite startup_loaded. cbn [fst snd models log].
  split; [reflexivity|]. split; [reflexivity|]. split; [reflexivity|].
  set (s1 := mkState _ _ _).
  assert (Hm : models s1 !! length (models s) = Some (mkModel w Softmax))
    by apply lookup_snoc_eq.
  destruct (predict_image_run L (length (models s)) (mkModel w Softmax)
              file_name buf img s1 Hm Hdec Hlen)
    as (q & label & Hq & Hlabel & Hrun).
  unfold distribution in Hq, Hlabel, Hrun. cbn [weights activation] in *.
  fold p in Hq, Hlabel, Hrun.
  change (linearized (mkModel w Softmax)) with (mkModel w Linear) in Hrun.
  rewrite Hheat in Hrun. rewrite Hrun. cbn [fst].
  eexists. split; [reflexivity|]. cbn. auto.
Qed.

Lemma loaded_weights_drive_prediction_witness :
  let L := Fixture.libs in
  let boot := startup [] (Ok Fixture.weights_file) Fixture.empty_state in
  let p := lib_forward L Fixture.weights_file Softmax
             (input_tensor L Fixture.pixel_image) in
  fst boot = Ok (Some (length (models Fixture.empty_state)))
  /\ models (snd boot) =
       models Fixture.empty_state ++ [mkModel Fixture.weights_file Softmax]
  /\ log (snd boot) =
       log Fixture.empty_state
         ++ [EvPrint "Model structure built and weights loaded successfully."]
  /\ exists pred,
       fst (predict_image L (Some (length (models Fixture.empty_state)))
              "scan.jpg" Fixture.pixel_upload (snd boot))
         = Ok (PredictionResponse pred)
       /\ probabilities pred = map (times_100 Float32) p
       /\ CLASS_NAMES !! argmax p = Some (diagnosis pred)
       /\ heatmap_image pred =
            match explanation L (mkModel Fixture.weights_file Linear)
                    (input_tensor L Fixture.pixel_image) (argmax p) with
            | Ok heat => heat
            | Raise _ => ""
            end.
Proof.
  assert (Hex : exists heat,
            explanation Fixture.libs (mkModel Fixture.weights_file Linear)
              (input_tensor Fixture.libs Fixture.pixel_image)
              (argmax (lib_forward Fixture.libs Fixture.weights_file Softmax
                         (input_tensor Fixture.libs Fixture.pixel_image)))
            = Ok heat).
  { change (argmax _) with 1%nat.
    unfold explanation, overlay, cv2_addWeighted, cv2_applyColorMap_JET,
      cam_to_uint8, tensor_to_uint8.
    cbn [lib_gradcam Fixture.libs]. unfold Fixture.gradcam.
    change (1 <? NUM_CLASSES)%nat with true. cbv iota.
    rewrite same_shape_map, !same_shape_map_l, same_shape_refl.
    eexists. reflexivity. }
  destruct Hex as [heat Hheat]. cbv zeta. rewrite Hheat.
  apply (loaded_weights_drive_prediction Fixture.libs [] Fixture.weights_file
           Fixture.empty_state "scan.jpg" Fixture.pixel_upload
           Fixture.pixel_image heat).
  - split; [discriminate | reflexivity].
  - reflexivity.
  - exact Hheat.
Defined.

(** ** More on the report *)

Ltac report_run :=
  repeat first [ rewrite lookup_snoc_eq
               | rewrite insert_snoc_eq
               | rewrite embed_block_run
               | progress pdf_step
               | progress cbn [page content Nat.ltb Nat.leb Nat.eqb] ].




(** The report of the fixture draws the one usable image. *)
Example report_draws_the_usable_image :
  forall doc,
    fst (create_pdf_report Fixture.libs
           (Fixture.payload Fixture.jpeg_text Fixture.garbage_text)
           Fixture.empty_state) = Ok doc ->
    drawn_images doc = [(Fixture.jpeg_bytes, 150%Z)].
Proof. intros doc H. vm_compute in H. injection H as <-. reflexivity. Qed.





Lemma create_pdf_report_missing (L : Libs) (data : gmap string string)
    (k : string) (s : State) :
  first_missing data = Some k ->
  fst (create_pdf_report L data s) = Raise (KeyError k)
  /\ models (snd (create_pdf_report L data s)) = models s
  /\ log (snd (create_pdf_report L data s)) = log s.
Proof.
  unfold first_missing, REPORT_KEYS. cbn [find].
  destruct s as [ms ps lg].
  unfold create_pdf_report, PDF_new, add_page, output, header, footer,
    for_each, py_getitem.
  destruct (data !! "filename") as [fname|];
    [|intros E; injection E as <-; report_run; auto].
  destruct (data !! "diagnosis") as [diag|];
    [|intros E; injection E as <-; report_run; auto].
  destruct (data !! "confidence") as [conf|];
    [|intros E; injection E as <-; report_run; auto].
  destruct (data !! "original_image") as [original|];
    [|intros E; injection E as <-; report_run; auto].
  destruct (data !! "heatmap_image") as [heat|];
    [|intros E; injection E as <-; report_run; auto].
  discriminate.
Qed.

Lemma first_missing_none (data : gmap string string) :
  first_missing data = None ->
  exists fname diag conf original heat,
    data !! "filename" = Some fname
    /\ data !! "diagnosis" = Some diag
    /\ data !! "confidence" = Some conf
    /\ data !! "original_image" = Some original
    /\ data !! "heatmap_image" = Some heat.
Proof.
  unfold first_missing, REPORT_KEYS. cbn [find].
  destruct (data !! "filename") as [fname|]; [|discriminate].
  destruct (data !! "diagnosis") as [diag|]; [|discriminate].
  destruct (data !! "confidence") as [conf|]; [|discriminate].
  destruct (data !! "original_image") as [original|]; [|discriminate].
  destruct (data !! "heatmap_image") as [heat|]; [|discriminate].
  intros _. eexists _, _, _, _, _. repeat split.
Qed.


(** An empty body is refused for its file name, a body without images
    for the original image. *)
Example export_pdf_empty_body :
  fst (export_pdf Fixture.libs ∅ Fixture.empty_state)
    = Raise (KeyError "filename")
  /\ fst (export_pdf Fixture.libs
            (list_to_map [("filename", "scan.jpg"); ("diagnosis", "Mild");
                          ("confidence", "60.00%")])
            Fixture.empty_state)
     = Raise (KeyError "original_image").
Proof. split; vm_compute; reflexivity. Qed.

(** X10. Rendering keeps nothing between calls.  What is returned --
    document or exception -- is determined by the payload, the render
    time the clock reports and what the libraries make of the image
    fields: two renderings of a payload at which the clock reads the
    same return the same, whatever the state of the process at either
    call.  Rendering never writes to the classifier store. *)
Theorem report_is_stateless (L L' : Libs) (data : gmap string string)
    (s s' : State) :
  lib_now L = lib_now L' ->
  (forall t, lib_b64decode L t = lib_b64decode L' t) ->
  (forall d, lib_load_image L d = lib_load_image L' d) ->
  fst (create_pdf_report L data s) = fst (create_pdf_report L' data s')
  /\ models (snd (create_pdf_report L data s)) = models s.
Proof.
  intros Hnow Hb64 Himg.
  destruct (first_missing data) as [k|] eqn:Hk.
  - destruct (create_pdf_report_missing L data k s Hk) as (H1 & Hm & _).
    destruct (create_pdf_report_missing L' data k s' Hk) as (H2 & _ & _).
    split; [congruence|exact Hm].
  - destruct (first_missing_none data Hk)
      as (fname & diag & conf & original & heat & Hf & Hd & Hc & Ho & Hh).
    rewrite (create_pdf_report_run L data fname diag conf original heat s
               Hf Hd Hc Ho Hh).
    rewrite (create_pdf_report_run L' data fname diag conf original heat s'
               Hf Hd Hc Ho Hh).
    cbn [fst snd models].
    assert (Hblock : forall title t,
               block_ops L title t = block_ops L' title t).
    { intros title t. unfold block_ops. rewrite Hb64.
      destruct (lib_b64decode L' t) as [d|e]; [|reflexivity].
      now rewrite Himg. }
    rewrite !Hblock. unfold report_head. rewrite Hnow.
    split; reflexivity.
Qed.

Lemma report_is_stateless_witness :
  let data := Fixture.payload Fixture.jpeg_text Fixture.garbage_text in
  fst (create_pdf_report Fixture.libs data Fixture.empty_state)
    = fst (create_pdf_report Fixture.libs_failing_gradcam data
             Fixture.loaded_state)
  /\ models (snd (create_pdf_report Fixture.libs data Fixture.empty_state))
     = models Fixture.empty_state.
Proof.
  apply (report_is_stateless Fixture.libs Fixture.libs_failing_gradcam
           (Fixture.payload Fixture.jpeg_text Fixture.garbage_text)
           Fixture.empty_state Fixture.loaded_state).
  - reflexivity.
  - intros t. reflexivity.
  - intros d. reflexivity.
Defined.



(** X12. The report reads the five keys and nothing else: two payloads
    that agree on them -- whatever further fields either carries -- are
    rendered alike, effects included. *)
Theorem report_ignores_other_fields (L : Libs)
    (data data' : gmap string string) (s : State) :
  (forall k, In k REPORT_KEYS -> data !! k = data' !! k) ->
  create_pdf_report L data s = create_pdf_report L data' s.
Proof.
  intros Hagree.
  unfold create_pdf_report, py_getitem.
  rewrite !(Hagree _) by (unfold REPORT_KEYS; cbn [In]; tauto).
  reflexivity.
Qed.

Lemma report_ignores_other_fields_witness :
  create_pdf_report Fixture.libs
    (Fixture.payload Fixture.jpeg_text Fixture.jpeg_text2)
    Fixture.empty_state
  = create_pdf_report Fixture.libs
      (<["probabilities" := "[10.0, 60.0, 20.0, 10.0, 0.0]"]>
         (Fixture.payload Fixture.jpeg_text Fixture.jpeg_text2))
      Fixture.empty_state.
Proof.
  apply (report_ignores_other_fields Fixture.libs).
  intros k Hk. unfold REPORT_KEYS in Hk. cbn [In] in Hk.
  repeat (destruct Hk as [<-|Hk]; [vm_compute; reflexivity|]).
  destruct Hk.
Defined.

(** ** Normalising and denormalising the scan *)

Lemma normalized_byte (c : Z) :
  is_byte c ->
  unit_interval (inject_Z c / 255)
  /\ astype_uint8 (inject_Z c / 255 * 255) = c.
Proof.
  unfold is_byte. intros [H0 H1].
  assert (Hq0 : (0 <= inject_Z c)%Q)
    by (change 0%Q with (inject_Z 0); now rewrite <- Zle_Qle).
  assert (Hq1 : (inject_Z c <= 255)%Q)
    by (change 255%Q with (inject_Z 255); now rewrite <- Zle_Qle).
  assert (Hunit : unit_interval (inject_Z c / 255)).
  { unfold unit_interval. split.
    - apply Qle_shift_div_l; [reflexivity|]. lra.
    - apply Qle_shift_div_r; [reflexivity|]. lra. }
  split; [exact Hunit|].
  destruct (astype_uint8_scaled _ Hunit) as [E _]. rewrite E.
  assert (Hback : (inject_Z c / 255 * 255 == inject_Z c)%Q) by field.
  rewrite Hback. apply Qfloor_Z.
Qed.

Lemma normalized_pixel (p : Z * Z * Z) :
  pixel_bytes p ->
  fpixel_unit (map_pixel (fun c => (inject_Z c / 255)%Q) p)
  /\ map_pixel (fun v => astype_uint8 (v * 255)%Q)
       (map_pixel (fun c => (inject_Z c / 255)%Q) p) = p.
Proof.
  destruct p as [[a b] c]. intros (Ha & Hb & Hc).
  destruct (normalized_byte a Ha) as [Ua Ea].
  destruct (normalized_byte b Hb) as [Ub Eb].
  destruct (normalized_byte c Hc) as [Uc Ec].
  cbn [map_pixel fpixel_unit]. rewrite Ea, Eb, Ec. auto.
Qed.

Lemma image_bytes_cons (row : list (Z * Z * Z)) (img : list (list (Z * Z * Z))) :
  image_bytes (row :: img) ->
  (forall x p, row !! x = Some p -> pixel_bytes p) /\ image_bytes img.
Proof.
  intros H. split.
  - intros x p Hx. exact (H 0%nat x p Hx).
  - intros y x p Hp. exact (H (S y) x p Hp).
Qed.

Lemma row_round_trip (row : list (Z * Z * Z)) :
  (forall x p, row !! x = Some p -> pixel_bytes p) ->
  map (map_pixel (fun v => astype_uint8 (v * 255)%Q))
      (map (map_pixel (fun c => (inject_Z c / 255)%Q)) row) = row.
Proof.
  induction row as [|p row IH]; intros H; [reflexivity|].
  cbn [map]. f_equal.
  - apply normalized_pixel. exact (H 0%nat p eq_refl).
  - apply IH. intros x q Hq. exact (H (S x) q Hq).
Qed.

(** X13. Dividing a byte image by 255 gives a tensor of the same size
    whose channels all lie between 0 and 1, and multiplying that tensor
    by 255 and casting to [uint8], as the explanation step does, gives
    back the byte image exactly. *)
Theorem normalize_round_trip (img : Image) :
  image_bytes img ->
  tensor_to_uint8 (normalize img) = img
  /\ same_shape (normalize img) img = true
  /\ (forall y x px, at2 (normalize img) y x = Some px -> fpixel_unit px).
Proof.
  intros Hbytes. split; [|split].
  - unfold tensor_to_uint8, normalize.
    induction img as [|row img IH]; [reflexivity|].
    destruct (image_bytes_cons row img Hbytes) as [Hrow Hrest].
    cbn [map]. f_equal; [now apply row_round_trip|now apply IH].
  - unfold normalize. rewrite same_shape_map_l. apply same_shape_refl.
  - intros y x px. unfold normalize. rewrite at2_map.
    destruct (at2 img y x) as [p|] eqn:Hp; [|discriminate].
    cbn [option_map]. intros E. injection E as <-.
    apply normalized_pixel. exact (Hbytes y x p Hp).
Qed.

Lemma normalize_round_trip_witness :
  tensor_to_uint8 (normalize Fixture.small_image) = Fixture.small_image
  /\ same_shape (normalize Fixture.small_image) Fixture.small_image = true
  /\ (forall y x px,
        at2 (normalize Fixture.small_image) y x = Some px -> fpixel_unit px).
Proof.
  apply (normalize_round_trip Fixture.small_image).
  intros [|[|y]] [|[|x]] p H; try discriminate H;
    injection H as <-; unfold pixel_bytes, is_byte; lia.
Defined.

(** X14. In a served request the picture under the heat is the scan as
    the network saw it: when OpenCV's resize returns a byte image and
    Grad-CAM a map of that size with values between 0 and 1, the response
    carries the encoding of a picture in which every channel of every
    pixel is the byte nearest to 40% of the jet colour of the saliency
    there plus 60% of the same channel of the resized, RGB-ordered
    upload. *)
Theorem heatmap_blends_the_resized_scan (L : Libs) (m : loc)
    (obj : ModelObj) (file_name : string) (buf : bytes) (img : Image)
    (s : State) (cam : Cam) :
  models s !! m = Some obj ->
  decodes_to L buf img ->
  length (distribution L obj img) = NUM_CLASSES ->
  let rgb := lib_resize L (map (map swap_rb) img) IMG_SIZE IMG_SIZE in
  image_bytes rgb ->
  lib_gradcam L (linearized obj) (argmax (distribution L obj img))
    (input_tensor L img) = Ok cam ->
  same_shape cam rgb = true ->
  (forall g, is_byte g -> pixel_bytes (lib_jet L g)) ->
  (forall y x c, at2 cam y x = Some c -> unit_interval c) ->
  exists pred picture,
    fst (predict_image L (Some m) file_name buf s) = Ok (PredictionResponse pred)
    /\ heatmap_image pred = lib_b64encode L (lib_imencode_jpg L picture)
    /\ forall y x c px,
         at2 cam y x = Some c ->
         at2 rgb y x = Some px ->
         exists out,
           at2 picture y x = Some out
           /\ pixel_rel blend_40_60 out (lib_jet L (Qfloor (c * 255))) px.
Proof.
  intros Hm Hdec Hlen rgb Hbytes Hcam Hshape Hjet Hunit.
  destruct (normalize_round_trip rgb Hbytes) as (Hback & _ & _).
  assert (Hov : exists picture,
            overlay L cam (input_tensor L img) = Ok picture).
  { unfold overlay, input_tensor. fold rgb. rewrite Hback.
    unfold cv2_addWeighted, cv2_applyColorMap_JET, cam_to_uint8.
    rewrite !same_shape_map_l, Hshape. eauto. }
  destruct Hov as [picture Hov].
  destruct (predict_image_run L m obj file_name buf img s Hm Hdec Hlen)
    as (q & label & _ & _ & Hrun).
  unfold explanation in Hrun. rewrite Hcam, Hov in Hrun.
  eexists _, picture. rewrite Hrun. cbn [fst heatmap_image].
  split; [reflexivity|]. split; [reflexivity|].
  intros y x c px Hc Hpx.
  unfold overlay, input_tensor in Hov. fold rgb in Hov. rewrite Hback in Hov.
  destruct (astype_uint8_scaled c (Hunit y x c Hc)) as [Egray Hgray].
  eexists. split.
  - eapply cv2_addWeighted_at; [exact Hov| |exact Hpx].
    unfold cv2_applyColorMap_JET, cam_to_uint8.
    rewrite !at2_map, Hc. cbn [option_map]. reflexivity.
  - rewrite Egray.
    pose proof (Hjet _ Hgray) as Hheat.
    pose proof (Hbytes y x px Hpx) as Horig.
    destruct (lib_jet L (Qfloor (c * 255))) as [[h1 h2] h3].
    destruct px as [[o1 o2] o3].
    destruct Hheat as (H1 & H2 & H3). destruct Horig as (O1 & O2 & O3).
    cbn [zip_pixel pixel_rel].
    repeat split; apply blend_is_40_60; assumption.
Qed.

Lemma nearest_lookup {A} (d : A) (src : list A) (n x : nat) (a : A) :
  Fixture.nearest d src n !! x = Some a -> a = d \/ In a src.
Proof.
  unfold Fixture.nearest. rewrite lookup_map.
  destruct (seq 0 n !! x) as [i|]; [|discriminate].
  cbn [option_map]. intros E. injection E as <-.
  destruct (nth_in_or_default
              (N.to_nat (N.of_nat i * N.of_nat (length src) / N.of_nat n))
              src d) as [H|H]; auto.
Qed.

Lemma fixture_resize_bytes (img : Image) (w h : nat) :
  image_bytes img -> image_bytes (Fixture.resize img w h).
Proof.
  intros Hbytes y x p. unfold Fixture.resize, at2. rewrite lookup_map.
  destruct (Fixture.nearest [] img h !! y) as [row|] eqn:Hrow; [|discriminate].
  cbn [option_map]. intros Hp.
  apply nearest_lookup in Hp. destruct Hp as [->|Hp].
  { unfold pixel_bytes, is_byte. lia. }
  apply nearest_lookup in Hrow. destruct Hrow as [->|Hrow]; [destruct Hp|].
  apply list_elem_of_In, list_elem_of_lookup in Hrow. destruct Hrow as [y' Hy'].
  apply list_elem_of_In, list_elem_of_lookup in Hp. destruct Hp as [x' Hx'].
  apply (Hbytes y' x' p). unfold at2. now rewrite Hy'.
Qed.

Lemma fixture_jet_bytes (g : Z) : is_byte g -> pixel_bytes (Fixture.jet g).
Proof.
  intros [Hlo Hhi]. unfold Fixture.jet.
  destruct (g <? 128)%Z eqn:E; [apply Z.ltb_lt in E | apply Z.ltb_ge in E];
    unfold pixel_bytes, is_byte; lia.
Qed.

Lemma heatmap_blends_the_resized_scan_witness :
  let L := Fixture.libs in
  let rgb := lib_resize L (map (map swap_rb) Fixture.pixel_image)
               IMG_SIZE IMG_SIZE in
  let cam := map (map (fun p : Q * Q * Q => fst (fst p))) (normalize rgb) in
  exists pred picture,
    fst (predict_image L (Some 0%nat) "scan.jpg" Fixture.pixel_upload
           Fixture.loaded_state) = Ok (PredictionResponse pred)
    /\ heatmap_image pred = lib_b64encode L (lib_imencode_jpg L picture)
    /\ forall y x c px,
         at2 cam y x = Some c ->
         at2 rgb y x = Some px ->
         exists out,
           at2 picture y x = Some out
           /\ pixel_rel blend_40_60 out (lib_jet L (Qfloor (c * 255))) px.
Proof.
  assert (Hbytes : image_bytes
            (lib_resize Fixture.libs (map (map swap_rb) Fixture.pixel_image)
               IMG_SIZE IMG_SIZE)).
  { apply fixture_resize_bytes.
    intros y x p H. destruct y as [|y].
    - destruct x as [|x]; [|destruct x; discriminate H].
      injection H as <-. unfold pixel_bytes, is_byte. lia.
    - destruct y; discriminate H. }
  apply (heatmap_blends_the_resized_scan Fixture.libs 0%nat
           Fixture.loaded_model "scan.jpg" Fixture.pixel_upload
           Fixture.pixel_image Fixture.loaded_state).
  - reflexivity.
  - split; [discriminate | reflexivity].
  - reflexivity.
  - exact Hbytes.
  - reflexivity.
  - rewrite same_shape_map_l.
    apply (proj1 (proj2 (normalize_round_trip _ Hbytes))).
  - exact fixture_jet_bytes.
  - intros y x c. rewrite at2_map.
    destruct (at2 (normalize _) y x) as [[[a b] d]|] eqn:Hpx; [|discriminate].
    cbn [option_map fst]. intros E. injection E as <-.
    exact (proj1 (proj2 (proj2 (normalize_round_trip _ Hbytes)) y x _ Hpx)).
Defined.

(** ** The confidence string *)

(** X15. The confidence a response shows is the maximal probability in
    percent, to two decimals, up to the rounding of the floating-point
    product: it reads [n] hundredths with [0 <= n <= 10000], and [n / 100]
    differs from 100 times the maximal probability by at most
    [1/200 + 2^-17].  The network's output is assumed to have five
    entries between 0 and 1. *)
Theorem confidence_is_accurate (L : Libs) (m : loc) (obj : ModelObj)
    (file_name : string) (buf : bytes) (img : Image) (s : State) :
  models s !! m = Some obj ->
  decodes_to L buf img ->
  let p := distribution L obj img in
  length p = NUM_CLASSES ->
  (forall x, In x p -> (0 <= x <= 1)%Q) ->
  let out := predict_image L (Some m) file_name buf s in
  (forall pred, fst out = Ok (PredictionResponse pred) ->
     exists q n,
       p !! argmax p = Some q
       /\ (0 <= n <= 10000)%Z
       /\ confidence pred = (hundredths n ++ "%")%string
       /\ (Qabs (inject_Z n / 100 - 100 * q) <= (1 # 200) + (1 # 131072))%Q)
  /\ (forall heat,
        explanation L (linearized obj) (input_tensor L img) (argmax p)
          = Ok heat ->
        exists pred, fst out = Ok (PredictionResponse pred)).
Proof.
  intros Hm Hdec p Hlen Hrange out.
  destruct (predict_image_run L m obj file_name buf img s Hm Hdec Hlen)
    as (q & label & Hq & Hlabel & Hrun).
  fold p in Hq, Hlabel, Hrun.
  subst out. rewrite Hrun. cbn [fst]. split.
  - intros pred Hpred.
    destruct (explanation _ _ _ _) as [heat|e]; [|discriminate].
    injection Hpred as <-. cbn [confidence].
    assert (Hqin : In q p)
      by (apply list_elem_of_In, list_elem_of_lookup; eauto).
    destruct (times_100_unit (lib_scalar_dtype L) q (Hrange q Hqin))
      as [[Hc0 Hc100] Hcnear].
    set (c := times_100 (lib_scalar_dtype L) q) in *.
    destruct (round_half_even_near (c * 100)) as [Hup Hdn].
    exists q, (round_half_even (c * 100)).
    split; [exact Hq|]. split.
    { apply round_half_even_between.
      - change (inject_Z 0) with 0%Q. lra.
      - change (inject_Z 10000) with 10000%Q. lra. }
    split; [now rewrite format_2f_hundredths|].
    set (n := round_half_even (c * 100)) in *.
    apply Qabs_Qle_condition in Hcnear. destruct Hcnear as [Hn1 Hn2].
    assert (E : (inject_Z n / 100 == inject_Z n * (1 # 100))%Q)
      by (field; discriminate).
    rewrite E. apply Qabs_Qle_condition. split; lra.
  - intros heat Hheat. rewrite Hheat. eauto.
Qed.

Lemma confidence_is_accurate_witness :
  let L := Fixture.libs in
  let p := distribution L Fixture.loaded_model Fixture.pixel_image in
  let out := predict_image L (Some 0%nat) "scan.jpg" Fixture.pixel_upload
               Fixture.loaded_state in
  (forall pred, fst out = Ok (PredictionResponse pred) ->
     exists q n,
       p !! argmax p = Some q
       /\ (0 <= n <= 10000)%Z
       /\ confidence pred = (hundredths n ++ "%")%string
       /\ (Qabs (inject_Z n / 100 - 100 * q) <= (1 # 200) + (1 # 131072))%Q)
  /\ (forall heat,
        explanation L (linearized Fixture.loaded_model)
          (input_tensor L Fixture.pixel_image) (argmax p) = Ok heat ->
        exists pred, fst out = Ok (PredictionResponse pred)).
Proof.
  apply (confidence_is_accurate Fixture.libs 0%nat Fixture.loaded_model
           "scan.jpg" Fixture.pixel_upload Fixture.pixel_image
           Fixture.loaded_state).
  - reflexivity.
  - split; [discriminate | reflexivity].
  - reflexivity.
  - intros x Hx. cbn in Hx.
    repeat (destruct Hx as [<-|Hx]; [split; discriminate|]). destruct Hx.
Defined.

(** Half a hundredth alone is not a bound: the float32 product of this
    probability and 100 falls below 68.015, and the confidence reads
    68.01 where the exact product rounds to 68.02. *)
Example confidence_exceeds_half_a_hundredth :
  let q := (713189 # 1048576)%Q in
  format_2f (times_100 Float32 q) = "68.01"
  /\ format_2f (q * 100) = "68.02"
  /\ (1 # 200 < Qabs ((6801 # 100) - 100 * q))%Q.
Proof. repeat split. Qed.

(** ** A saliency map of the wrong size *)

(** X16. The heat map is blended as Grad-CAM returns it, without being
    resized: if the map does not have the size of the input tensor,
    [cv2.addWeighted] refuses the operands and the request ends in
    [cv2.error]; no cropped or padded overlay is returned. *)
Theorem mismatched_saliency_map_fails_request (L : Libs) (m : loc)
    (obj : ModelObj) (file_name : string) (buf : bytes) (img : Image)
    (s : State) (cam : Cam) :
  models s !! m = Some obj ->
  decodes_to L buf img ->
  length (distribution L obj img) = NUM_CLASSES ->
  lib_gradcam L (linearized obj) (argmax (distribution L obj img))
    (input_tensor L img) = Ok cam ->
  same_shape cam (input_tensor L img) = false ->
  fst (predict_image L (Some m) file_name buf s)
    = Raise (CvError "Sizes of input arguments do not match").
Proof.
  intros Hm Hdec Hlen Hcam Hshape.
  destruct (predict_image_run L m obj file_name buf img s Hm Hdec Hlen)
    as (q & label & _ & _ & Hrun).
  rewrite Hrun. cbn [fst].
  unfold explanation, overlay, cv2_addWeighted, cv2_applyColorMap_JET,
    cam_to_uint8, tensor_to_uint8.
  rewrite Hcam, same_shape_map, same_shape_map_l, Hshape. reflexivity.
Qed.

Lemma mismatched_saliency_map_fails_request_witness :
  fst (predict_image Fixture.libs_small_gradcam (Some 0%nat) "scan.jpg"
         Fixture.pixel_upload Fixture.loaded_state)
    = Raise (CvError "Sizes of input arguments do not match").
Proof.
  apply (mismatched_saliency_map_fails_request Fixture.libs_small_gradcam
           0%nat Fixture.loaded_model "scan.jpg" Fixture.pixel_upload
           Fixture.pixel_image Fixture.loaded_state [[1 # 2]]%Q).
  - reflexivity.
  - split; [discriminate | reflexivity].
  - reflexivity.
  - reflexivity.
  - vm_compute. reflexivity.
Defined.
